(** * CommandAI: the command executor

    A shallow embedding of [src/command/executor.py] (class
    [CommandExecutor]) together with the pieces of the Python standard
    library it calls: [str] methods, [re.search], [shlex.split] in
    non-POSIX mode and [os.path] (the [posixpath] flavour).

    Modelling conventions.
    - A Python [str] is a [string]; a character stands for the code point
      of the same number, so the model covers the code points below 256.
    - A Python call that may raise returns a [result]; the only exceptions
      the executor can meet before its [try] blocks are [ValueError] (from
      [shlex]) and [IndexError].
    - The host (file system and process spawning) is a record of oracles,
      [Host]; every call of [subprocess.Popen] is logged, so that "no
      process was spawned" is a statement about the log. *)

From Stdlib Require Import Bool List Arith ZArith NArith Lia.
From Stdlib Require Import Ascii String.
Import ListNotations.

Local Open Scope list_scope.
Local Open Scope string_scope.

(** ** Python [str] operations *)

Module PyStr.

(** Code point of a character. *)
Definition ord (c : ascii) : N := N_of_ascii c.

(** [str.isspace] on one character ([Py_UNICODE_ISSPACE]): TAB..CR,
    FS..US, SPACE, NEL (0x85) and NBSP (0xA0). *)
Definition isspace (c : ascii) : bool :=
  let n := ord c in
  ((9 <=? n) && (n <=? 13) || (28 <=? n) && (n <=? 32)
   || (n =? 133) || (n =? 160))%N.

(** Upper-case letters with a lower-case partner 32 places further:
    A..Z and the Latin-1 capitals 0xC0..0xDE other than 0xD7. *)
Definition isupper (c : ascii) : bool :=
  let n := ord c in
  ((65 <=? n) && (n <=? 90)
   || (192 <=? n) && (n <=? 222) && negb (n =? 215))%N.

Definition lower_char (c : ascii) : ascii :=
  if isupper c then ascii_of_N (ord c + 32) else c.

(** [s.lower()] *)
Fixpoint lower (s : string) : string :=
  match s with
  | EmptyString => EmptyString
  | String c s' => String (lower_char c) (lower s')
  end.

(** [c in chars] for a one-character string [c]. *)
Fixpoint char_in (c : ascii) (chars : string) : bool :=
  match chars with
  | EmptyString => false
  | String d chars' => Ascii.eqb c d || char_in c chars'
  end.

Fixpoint lstrip_by (p : ascii -> bool) (s : string) : string :=
  match s with
  | EmptyString => EmptyString
  | String c s' => if p c then lstrip_by p s' else s
  end.

Fixpoint rstrip_by (p : ascii -> bool) (s : string) : string :=
  match s with
  | EmptyString => EmptyString
  | String c s' =>
      match rstrip_by p s' with
      | EmptyString => if p c then EmptyString else String c EmptyString
      | r => String c r
      end
  end.

(** [s.strip()] removes leading and trailing white space. *)
Definition strip (s : string) : string :=
  rstrip_by isspace (lstrip_by isspace s).

(** [s.strip(chars)] removes leading and trailing characters of [chars]. *)
Definition strip_chars (chars s : string) : string :=
  rstrip_by (fun c => char_in c chars) (lstrip_by (fun c => char_in c chars) s).

(** [s.startswith(p)] *)
Fixpoint startswith (s p : string) {struct p} : bool :=
  match p, s with
  | EmptyString, _ => true
  | String _ _, EmptyString => false
  | String c p', String d s' => Ascii.eqb c d && startswith s' p'
  end.

(** [sub in s] : [sub] occurs in [s] as a contiguous substring. *)
Fixpoint contains (sub s : string) : bool :=
  startswith s sub ||
  match s with
  | EmptyString => false
  | String _ s' => contains sub s'
  end.

(** [x in l] for a list of strings. *)
Definition in_list (x : string) (l : list string) : bool :=
  existsb (String.eqb x) l.

(** [s.split(sep)] for a one-character separator. *)
Fixpoint split (sep : ascii) (s : string) : list string :=
  match s with
  | EmptyString => [EmptyString]
  | String c s' =>
      if Ascii.eqb c sep then EmptyString :: split sep s'
      else match split sep s' with
           | [] => [String c EmptyString]
           | w :: ws => String c w :: ws
           end
  end.

(** [sep.join(l)] *)
Fixpoint join (sep : string) (l : list string) : string :=
  match l with
  | [] => EmptyString
  | [w] => w
  | w :: ws => w ++ sep ++ join sep ws
  end.

End PyStr.

(** ** Regular expressions, as far as [re.search] is used *)

Module Re.

(** An item of a bracketed character set. *)
Inductive set_item : Type :=
| Lit (c : ascii)
| Range (lo hi : ascii).

Definition item_has (c : ascii) (i : set_item) : bool :=
  match i with
  | Lit d => Ascii.eqb c d
  | Range lo hi =>
      (PyStr.ord lo <=? PyStr.ord c)%N && (PyStr.ord c <=? PyStr.ord hi)%N
  end.

Inductive regex : Type :=
| Empty                          (* matches nothing; arises in derivatives *)
| Eps                            (* the empty pattern *)
| Chr (c : ascii)                (* a literal character *)
| Space                          (* \s *)
| OneOf (items : list set_item)  (* [...] *)
| Cat (r1 r2 : regex)
| Alt (r1 r2 : regex)
| Star (r : regex).

(** [r+] *)
Definition Plus (r : regex) : regex := Cat r (Star r).

(** A run of literal characters. *)
Fixpoint Str (s : string) : regex :=
  match s with
  | EmptyString => Eps
  | String c EmptyString => Chr c
  | String c s' => Cat (Chr c) (Str s')
  end.

Fixpoint nullable (r : regex) : bool :=
  match r with
  | Empty | Chr _ | Space | OneOf _ => false
  | Eps | Star _ => true
  | Cat r1 r2 => nullable r1 && nullable r2
  | Alt r1 r2 => nullable r1 || nullable r2
  end.

Definition mkCat (r1 r2 : regex) : regex :=
  match r1, r2 with
  | Empty, _ => Empty
  | _, Empty => Empty
  | Eps, _ => r2
  | _, _ => Cat r1 r2
  end.

Definition mkAlt (r1 r2 : regex) : regex :=
  match r1, r2 with
  | Empty, _ => r2
  | _, Empty => r1
  | _, _ => Alt r1 r2
  end.

Definition step (b : bool) : regex := if b then Eps else Empty.

(** Brzozowski derivative: what is left of [r] after reading [c]. *)
Fixpoint deriv (c : ascii) (r : regex) : regex :=
  match r with
  | Empty | Eps => Empty
  | Chr d => step (Ascii.eqb c d)
  | Space => step (PyStr.isspace c)
  | OneOf items => step (existsb (item_has c) items)
  | Cat r1 r2 =>
      mkAlt (mkCat (deriv c r1) r2)
            (if nullable r1 then deriv c r2 else Empty)
  | Alt r1 r2 => mkAlt (deriv c r1) (deriv c r2)
  | Star r1 => mkCat (deriv c r1) (Star r1)
  end.

(** [re.match(r, s) is not None]: some prefix of [s] matches [r]. *)
Fixpoint match_prefix (r : regex) (s : string) : bool :=
  nullable r ||
  match s with
  | EmptyString => false
  | String c s' => match_prefix (deriv c r) s'
  end.

(** [re.search(r, s) is not None]: [r] matches at some position of [s]. *)
Fixpoint search (r : regex) (s : string) : bool :=
  match_prefix r s ||
  match s with
  | EmptyString => false
  | String _ s' => search r s'
  end.

(** Declarative meaning of a pattern. *)
Inductive Matches : regex -> string -> Prop :=
| MEps : Matches Eps EmptyString
| MChr c : Matches (Chr c) (String c EmptyString)
| MSpace c : PyStr.isspace c = true -> Matches Space (String c EmptyString)
| MOneOf c items :
    existsb (item_has c) items = true ->
    Matches (OneOf items) (String c EmptyString)
| MCat r1 r2 s1 s2 :
    Matches r1 s1 -> Matches r2 s2 -> Matches (Cat r1 r2) (s1 ++ s2)
| MAltL r1 r2 s : Matches r1 s -> Matches (Alt r1 r2) s
| MAltR r1 r2 s : Matches r2 s -> Matches (Alt r1 r2) s
| MStar0 r : Matches (Star r) EmptyString
| MStarS r s1 s2 :
    Matches r s1 -> Matches (Star r) s2 -> Matches (Star r) (s1 ++ s2).

End Re.

(** ** Exceptions and fallible results *)

Inductive exn : Type :=
| ValueError (msg : string)
| IndexError (msg : string).

Inductive result (A : Type) : Type :=
| Ok (a : A)
| Raise (e : exn).

Arguments Ok {A} a.
Arguments Raise {A} e.

(** ** [shlex.split(s, posix=False)]

    [shlex.split] builds a lexer with [whitespace_split = True] and no
    comment characters, and collects the tokens of [read_token] until the
    end-of-file token.  The lexer keeps its state between two tokens, so the
    model is one pass over the input that carries the lexer state and the
    token under construction. *)

Module Shlex.

Definition dquote : ascii := "034"%char.
Definition squote : ascii := "'"%char.

(** [self.whitespace]: space, TAB, CR, LF. *)
Definition whitespace : string :=
  String " " (String "009" (String "013" (String "010" EmptyString))).

(** [self.quotes]: the single and the double quote. *)
Definition quotes : string := String squote (String dquote EmptyString).

(** [self.state]: [' '], ['a'], or the opening quote character. *)
Inductive state : Type :=
| InSpace
| InWord
| InQuote (q : ascii).

Definition snoc (token : string) (c : ascii) : string :=
  token ++ String c EmptyString.

Definition emit (token : string) (more : result (list string))
  : result (list string) :=
  match more with
  | Ok tokens => Ok (token :: tokens)
  | Raise e => Raise e
  end.

Fixpoint read_tokens (instream : string) (st : state) (token : string)
  : result (list string) :=
  match instream with
  | EmptyString =>
      match st with
      | InSpace => Ok []
      | InWord => Ok [token]
      | InQuote _ => Raise (ValueError "No closing quotation")
      end
  | String nextchar rest =>
      match st with
      | InSpace =>
          if PyStr.char_in nextchar whitespace then
            read_tokens rest InSpace EmptyString
          else if PyStr.char_in nextchar quotes then
            read_tokens rest (InQuote nextchar) (String nextchar EmptyString)
          else
            read_tokens rest InWord (String nextchar EmptyString)
      | InQuote q =>
          if Ascii.eqb nextchar q then
            emit (snoc token nextchar) (read_tokens rest InSpace EmptyString)
          else
            read_tokens rest (InQuote q) (snoc token nextchar)
      | InWord =>
          if PyStr.char_in nextchar whitespace then
            emit token (read_tokens rest InSpace EmptyString)
          else
            read_tokens rest InWord (snoc token nextchar)
      end
  end.

Definition split (s : string) : result (list string) :=
  read_tokens s InSpace EmptyString.

End Shlex.

(** ** [os.path]

    The executor uses three lexical functions of [os.path]; which module stands
    behind that name depends on the platform. *)

Class OsPath : Type := {
  isabs : string -> bool;
  join : string -> string -> string;
  normpath : string -> string
}.

(** [posixpath] *)

Module PosixPath.

Definition sep : ascii := "/"%char.

Definition isabs (s : string) : bool := PyStr.startswith s "/".

(** [a.endswith(sep)] *)
Fixpoint endswith_sep (s : string) : bool :=
  match s with
  | EmptyString => false
  | String c EmptyString => Ascii.eqb c sep
  | String _ s' => endswith_sep s'
  end.

(** [join(a, b)] *)
Definition join (a b : string) : string :=
  if PyStr.startswith b "/" then b
  else if (String.eqb a EmptyString) || endswith_sep a then a ++ b
  else a ++ "/" ++ b.

(** Number of leading slashes that [normpath] keeps: 0, 1 or 2. *)
Definition initial_slashes (path : string) : nat :=
  if PyStr.startswith path "/" then
    if PyStr.startswith path "//" && negb (PyStr.startswith path "///")
    then 2 else 1
  else 0.

(** One round of the loop over the components. *)
Definition norm_step (initial : nat) (new_comps : list string) (comp : string)
  : list string :=
  if PyStr.in_list comp [EmptyString; "."] then new_comps
  else if negb (String.eqb comp "..")
          || (Nat.eqb initial 0 && Nat.eqb (List.length new_comps) 0)
          || (negb (Nat.eqb (List.length new_comps) 0)
              && String.eqb (List.last new_comps EmptyString) "..")
  then (new_comps ++ [comp])%list
  else List.removelast new_comps.

Fixpoint repeat_sep (n : nat) : string :=
  match n with
  | O => EmptyString
  | S n' => String sep (repeat_sep n')
  end.

Definition normpath (path : string) : string :=
  if String.eqb path EmptyString then "."
  else
    let initial := initial_slashes path in
    let comps := List.fold_left (norm_step initial) (PyStr.split sep path) [] in
    let path' := repeat_sep initial ++ PyStr.join "/" comps in
    if String.eqb path' EmptyString then "." else path'.

End PosixPath.

#[export] Instance posixpath : OsPath := {
  isabs := PosixPath.isabs;
  join := PosixPath.join;
  normpath := PosixPath.normpath
}.

(** ** The host *)

(** How [subprocess.Popen(...)] followed by [communicate(timeout=...)] ends. *)
Inductive completion : Type :=
| Exited (returncode : Z) (stdout stderr : string)
| TimeoutExpired
| OtherException (str_e : string).

(** A logged call of [subprocess.Popen(command, shell=True, cwd=...)]. *)
Record popen_call : Type := {
  popen_command : string;
  popen_cwd : string;
  popen_timeout : Z
}.

Record Host : Type := {
  (** [os.path.isdir] *)
  isdir : string -> bool;
  (** what the host shell does with a command, a directory and a timeout *)
  communicate : string -> string -> Z -> completion
}.

(** The tuple [(output, success, new_directory)]. *)
Record Outcome : Type := {
  output : string;
  success : bool;
  new_directory : option string
}.

(** ** [CommandExecutor] *)

Module CommandExecutor.

Import Re.

Definition DIRECTORY_COMMANDS : list string :=
  ["cd"; "chdir"; "pushd"; "popd"].

Definition BLOCKED_COMMANDS : list string :=
  ["rm -rf /"; "rmdir /s /q c:"; "format"; "del /f /s /q"].

(** A pattern written as the sequence of its pieces. *)
Fixpoint Seq (rs : list regex) : regex :=
  match rs with
  | [] => Eps
  | [r] => r
  | r :: rs' => Cat r (Seq rs')
  end.

(** The list [danger_patterns] of [_is_dangerous_command]; each entry is
    preceded by its source text. *)
Definition danger_patterns : list regex :=
  [ (* rm\s+-rf\s+[/\\] *)
    Seq [Str "rm"; Plus Space; Str "-rf"; Plus Space;
         OneOf [Lit "/"; Lit "\"]];
    (* rmdir\s+/s\s+/q\s+[c-zC-Z]: *)
    Seq [Str "rmdir"; Plus Space; Str "/s"; Plus Space; Str "/q"; Plus Space;
         OneOf [Range "c" "z"; Range "C" "Z"]; Chr ":"];
    (* format\s+[c-zC-Z]: *)
    Seq [Str "format"; Plus Space; OneOf [Range "c" "z"; Range "C" "Z"];
         Chr ":"];
    (* del\s+/[fFqQsS]+\s+[/\\] *)
    Seq [Str "del"; Plus Space; Chr "/";
         Plus (OneOf [Lit "f"; Lit "F"; Lit "q"; Lit "Q"; Lit "s"; Lit "S"]);
         Plus Space; OneOf [Lit "/"; Lit "\"]] ].

Definition _is_dangerous_command (command : string) : bool :=
  let command_lower := PyStr.lower command in
  existsb (fun blocked => PyStr.contains blocked command_lower)
          BLOCKED_COMMANDS
  || existsb (fun pattern => Re.search pattern command_lower)
             danger_patterns.

Definition _is_directory_command (command : string) : result bool :=
  match Shlex.split command with
  | Raise e => Raise e
  | Ok [] => Ok false
  | Ok (base :: _) => Ok (PyStr.in_list (PyStr.lower base) DIRECTORY_COMMANDS)
  end.

Definition blocked_outcome : Outcome :=
  {| output := "Command blocked for safety reasons. Please use a less destructive alternative.";
     success := false;
     new_directory := None |}.

Section WithPlatform.

Context {os_path : OsPath}.

(** Lines 129-132: the path that [target] means in [current_directory]. *)
Definition resolve (current_directory target : string) : string :=
  if isabs target then target
  else normpath (join current_directory target).

(** Lines 123-126: the argument of a [cd], that is the remaining tokens
    joined by single spaces, quote characters stripped at both ends. *)
Definition cd_target (args : list string) : string :=
  PyStr.strip_chars Shlex.quotes (PyStr.join " " args).

(** The [try] block of the handler calls [str.join], [str.strip] and the
    four [os.path] functions on strings; none of them raises, so its
    [except] branch has no counterpart here.  The two calls of
    [shlex.split] and the indexing [cmd_parts[0]] stand outside the block. *)
Definition _handle_directory_command
  (h : Host) (command current_directory : string) : result Outcome :=
  match Shlex.split command with
  | Raise e => Raise e
  | Ok [] => Raise (IndexError "list index out of range")
  | Ok (first :: args) =>
      let base_cmd := PyStr.lower first in
      if String.eqb base_cmd "cd" || String.eqb base_cmd "chdir" then
        match args with
        | [] => Ok {| output := current_directory; success := true;
                      new_directory := None |}
        | _ =>
            let target := cd_target args in
            let new_dir := resolve current_directory target in
            if isdir h new_dir then
              Ok {| output := "Changed directory to: " ++ new_dir;
                    success := true;
                    new_directory := Some new_dir |}
            else
              Ok {| output := "The system cannot find the path specified: "
                              ++ target;
                    success := false;
                    new_directory := None |}
        end
      else
        Ok {| output := "Command " ++ base_cmd ++ " not fully implemented.";
              success := false;
              new_directory := None |}
  end.

(** Lines 67-75: what the executor makes of the end of the spawned process. *)
Definition report (c : completion) : Outcome :=
  match c with
  | Exited returncode stdout stderr =>
      if (returncode =? 0)%Z then
        {| output := PyStr.strip stdout; success := true;
           new_directory := None |}
      else
        {| output := "Error: " ++ PyStr.strip stderr; success := false;
           new_directory := None |}
  | TimeoutExpired =>
      {| output := "Command timed out after 30 seconds"; success := false;
         new_directory := None |}
  | OtherException str_e =>
      {| output := "Failed to execute command: " ++ str_e; success := false;
         new_directory := None |}
  end.

(** [execute_command]: the value returned (or the exception raised) and
    the log of the processes it spawned. *)
Definition execute_command (h : Host) (command current_directory : string)
  : result Outcome * list popen_call :=
  if _is_dangerous_command command then (Ok blocked_outcome, [])
  else
    match _is_directory_command command with
    | Raise e => (Raise e, [])
    | Ok true => (_handle_directory_command h command current_directory, [])
    | Ok false =>
        if PyStr.in_list (PyStr.lower (PyStr.strip command)) ["exit"; "quit"]
        then
          (Ok {| output := "Use the window close button to exit the application.";
                 success := true; new_directory := None |}, [])
        else
          (Ok (report (communicate h command current_directory 30)),
           [ {| popen_command := command;
                popen_cwd := current_directory;
                popen_timeout := 30 |} ])
    end.

(** The caller ([MainWindow._execute_command]) keeps the session's
    directory and replaces it when the executor returns a new one. *)
Definition session_update (current_directory : string) (r : result Outcome)
  : string :=
  match r with
  | Ok {| new_directory := Some d |} =>
      if negb (String.eqb d EmptyString)
         && negb (String.eqb d current_directory)
      then d else current_directory
  | _ => current_directory
  end.

(** A session: each submission meets the host as it is at that moment. *)
Fixpoint session (submissions : list (Host * string))
  (current_directory : string) : string * list (result Outcome) :=
  match submissions with
  | [] => (current_directory, [])
  | (h, command) :: later =>
      let r := fst (execute_command h command current_directory) in
      let '(final, rs) := session later (session_update current_directory r) in
      (final, r :: rs)
  end.

End WithPlatform.

End CommandExecutor.

(** ** [LlamaClient._extract_commands] ([src/ai/llama_client.py]) *)

Module LlamaClient.

Definition newline : ascii := "010"%char.

(** Lines 152-153: a first line that opens a code block is dropped. *)
Definition drop_opening_fence (lines : list string) : list string :=
  match lines with
  | [] => lines
  | first :: rest =>
      if PyStr.startswith first "```" || String.eqb first "```cmd"
         || String.eqb first "```powershell"
      then rest else lines
  end.

(** Lines 154-155: a last line that closes a code block is dropped. *)
Definition drop_closing_fence (lines : list string) : list string :=
  match lines with
  | [] => lines
  | _ :: _ =>
      if String.eqb (List.last lines EmptyString) "```"
      then List.removelast lines else lines
  end.

(** Lines 159-162: one round of the loop that collects the commands. *)
Definition collect (commands : list string) (line : string) : list string :=
  let line := PyStr.strip line in
  if negb (String.eqb line EmptyString)
     && negb (PyStr.startswith line "#")
     && negb (PyStr.startswith line "//")
  then (commands ++ [line])%list
  else commands.

Definition _extract_commands (response_text : string) : list string :=
  let lines := PyStr.split newline (PyStr.strip response_text) in
  let lines := drop_opening_fence lines in
  let lines := drop_closing_fence lines in
  List.fold_left collect lines [].

End LlamaClient.

(** ** [MainWindow._format_directory_listing] ([src/ui/main_window.py]) *)

Module MainWindow.

(** [s[n:]] *)
Fixpoint skip (n : nat) (s : string) : string :=
  match n, s with
  | O, _ => s
  | S _, EmptyString => EmptyString
  | S n', String _ s' => skip n' s'
  end.

(** The text before and the text after the leftmost occurrence of a
    non-empty [sep] in [s], if there is one. *)
Fixpoint partition_at (sep s : string) : option (string * string) :=
  if PyStr.startswith s sep then
    Some (EmptyString, skip (String.length sep) s)
  else
    match s with
    | EmptyString => None
    | String c s' =>
        match partition_at sep s' with
        | Some (before, after) => Some (String c before, after)
        | None => None
        end
    end.

(** [s.split(sep, 1)] for a non-empty [sep]. *)
Definition split_once (sep s : string) : list string :=
  match partition_at sep s with
  | Some (before, after) => [before; after]
  | None => [s]
  end.

(** [l[i]] *)
Definition index (l : list string) (i : nat) : result string :=
  match List.nth_error l i with
  | Some x => Ok x
  | None => Raise (IndexError "list index out of range")
  end.

Definition DIR_span : string :=
  "<span style='color:#80BFFF;font-weight:bold;'>&lt;DIR&gt;</span>".

(** Lines 556-565: one round of the loop over the lines. *)
Definition format_line (formatted_output : result string) (line : string)
  : result string :=
  match formatted_output with
  | Raise e => Raise e
  | Ok formatted_output =>
      if PyStr.contains "<DIR>" line then
        let formatted_parts := split_once "<DIR>" line in
        match index formatted_parts 0, index formatted_parts 1 with
        | Ok part0, Ok part1 =>
            let formatted_line := part0 ++ DIR_span ++ part1 in
            Ok (formatted_output ++ formatted_line
                ++ String LlamaClient.newline EmptyString)
        | Raise e, _ | _, Raise e => Raise e
        end
      else
        Ok (formatted_output ++ line ++ String LlamaClient.newline EmptyString)
  end.

Definition _format_directory_listing (output : string) : result string :=
  let lines := PyStr.split LlamaClient.newline output in
  List.fold_left format_line lines (Ok EmptyString).

(** *** The terminal pane and the commands of the assistant

    Of the window the model keeps the session's directory and the lines
    inserted into the terminal pane, together with two records of what
    happened: the processes spawned so far and the number of calls of
    [QApplication.processEvents()].  Other widgets are left out.

    [_append_to_terminal] ends with [QApplication.processEvents()], which
    runs the handlers of the events queued at that moment (a command
    entered meanwhile, a finished recording); these handlers may submit
    commands of their own.  What they do to the window is not fixed by the
    functions modelled here: it is given by [Events], one transformation of
    the window for each call of [processEvents] in turn.  A handler that
    ends the program ends the run; the model speaks of the runs that go
    on. *)

Record Window : Type := {
  current_directory : string;
  terminal_output : list string;
  popen_calls : list popen_call;
  events_processed : nat
}.

Definition Events : Type := nat -> Window -> Window.

(** [QApplication.processEvents()] *)
Definition processEvents (events : Events) (w : Window) : Window :=
  let w' := events (events_processed w) w in
  {| current_directory := current_directory w';
     terminal_output := terminal_output w';
     popen_calls := popen_calls w';
     events_processed := S (events_processed w) |}.

(** Truth value of an optional colour argument. *)
Definition given (color : option string) : option string :=
  match color with
  | Some c => if String.eqb c EmptyString then None else Some c
  | None => None
  end.

(** Lines 470-489: the HTML that [_append_to_terminal] inserts. *)
Definition html_line (prompt text : string) (color : option string) : string :=
  (if String.eqb prompt EmptyString then EmptyString else prompt ++ " ")
  ++ (if PyStr.contains (String LlamaClient.newline EmptyString) text
         || PyStr.contains "  " text
      then match given color with
           | Some c => "<pre style='color:" ++ c ++ "; margin:0;'>" ++ text ++ "</pre>"
           | None => "<pre style='margin:0;'>" ++ text ++ "</pre>"
           end
      else match given color with
           | Some c => "<span style='color:" ++ c ++ ";'>" ++ text ++ "</span><br>"
           | None => text ++ "<br>"
           end).

(** Lines 464-499: insert the line, then let the queued events run. *)
Definition _append_to_terminal (events : Events)
  (w : Window) (prompt text : string) (color : option string) : Window :=
  processEvents events
    {| current_directory := current_directory w;
       terminal_output := (terminal_output w ++ [html_line prompt text color])%list;
       popen_calls := popen_calls w;
       events_processed := events_processed w |}.

(** [str(e)] *)
Definition str_exn (e : exn) : string :=
  match e with
  | ValueError msg | IndexError msg => msg
  end.

(** What [LlamaClient._make_api_request] gives: the trimmed content of the
    reply, or an exception with its text. *)
Inductive api_reply : Type :=
| Content (response : string)
| ApiError (str_e : string).

Section WithPlatform.

Context {os_path : OsPath}.

(** Lines 525-549: the window after the call and what the call returns or
    raises. *)
Definition _execute_command (events : Events) (h : Host) (w : Window)
  (command : string) : Window * result (string * bool) :=
  let '(r, calls) :=
    CommandExecutor.execute_command h command (current_directory w) in
  let w :=
    {| current_directory := current_directory w;
       terminal_output := terminal_output w;
       popen_calls := (popen_calls w ++ calls)%list;
       events_processed := events_processed w |} in
  match r with
  | Raise e => (w, Raise e)
  | Ok o =>
      let w :=
        {| current_directory :=
             CommandExecutor.session_update (current_directory w) (Ok o);
           terminal_output := terminal_output w;
           popen_calls := popen_calls w;
           events_processed := events_processed w |} in
      if success o then
        if String.eqb (output o) EmptyString then (w, Ok (output o, success o))
        else
          let is_dir_listing :=
            PyStr.in_list (PyStr.lower (PyStr.strip command)) ["dir"; "ls"]
            || PyStr.startswith command "dir "
            || PyStr.startswith command "ls " in
          if is_dir_listing then
            match _format_directory_listing (output o) with
            | Ok formatted_output =>
                (_append_to_terminal events w EmptyString formatted_output None,
                 Ok (output o, success o))
            | Raise e => (w, Raise e)
            end
          else
            (_append_to_terminal events w EmptyString (output o) None,
             Ok (output o, success o))
      else
        (_append_to_terminal events w EmptyString (output o) (Some "#FF6E6E"),
         Ok (output o, success o))
  end.

(** Lines 598-601: the loop over the commands of the assistant; the [i]-th
    call of the executor in this loop meets the host [hosts i]. *)
Fixpoint run_ai_commands (events : Events) (hosts : nat -> Host) (i : nat)
  (w : Window) (ai_commands : list string) : Window * option exn :=
  match ai_commands with
  | [] => (w, None)
  | cmd :: rest =>
      let w := _append_to_terminal events w EmptyString ("$ " ++ cmd)
                 (Some "#6EDDDD") in
      match _execute_command events (hosts i) w cmd with
      | (w, Raise e) => (w, Some e)
      | (w, Ok _) => run_ai_commands events hosts (S i) w rest
      end
  end.

(** Lines 582-606 of [_process_with_ai], reached once the client exists,
    with [LlamaClient.get_command] (lines 47-57 of [llama_client.py]) in
    place: [request d] stands for the answer of [_make_api_request] to the
    query and the prompt built for the directory [d]. *)
Definition _process_with_ai (events : Events) (request : string -> api_reply)
  (hosts : nat -> Host) (w : Window) : Window :=
  let w := _append_to_terminal events w EmptyString "Processing with AI..."
             (Some "#6E9EFF") in
  match request (current_directory w) with
  | ApiError str_e =>
      _append_to_terminal events w EmptyString ("AI error: " ++ str_e)
        (Some "#FF6E6E")
  | Content response =>
      let ai_commands :=
        if String.eqb response EmptyString then None
        else Some (LlamaClient._extract_commands response) in
      match ai_commands with
      | None | Some [] =>
          _append_to_terminal events w EmptyString
            "AI couldn't process the command" (Some "#FF6E6E")
      | Some ai_commands =>
          let w := _append_to_terminal events w EmptyString
                     "AI suggests the following command(s):" (Some "#6E9EFF") in
          match run_ai_commands events hosts 0 w ai_commands with
          | (w, None) => w
          | (w, Some e) =>
              _append_to_terminal events w EmptyString
                ("AI error: " ++ str_exn e) (Some "#FF6E6E")
          end
      end
  end.

End WithPlatform.

End MainWindow.

(** * Vocabulary of the statements *)

Import CommandExecutor.

(** Every character of [s] passes the test [p]. *)
Fixpoint all_chars (p : ascii -> bool) (s : string) : bool :=
  match s with
  | EmptyString => true
  | String c s' => p c && all_chars p s'
  end.

(** [sub] occurs in [s]. *)
Definition Substring (sub s : string) : Prop :=
  exists pre post, s = pre ++ sub ++ post.

(** [r] matches somewhere in [s]. *)
Definition Occurs (r : Re.regex) (s : string) : Prop :=
  exists pre m post, s = pre ++ m ++ post /\ Re.Matches r m.

Definition is_space (c : ascii) : bool := PyStr.char_in c Shlex.whitespace.
Definition is_quote (c : ascii) : bool := PyStr.char_in c Shlex.quotes.

(** No quote character occurs in [s]. *)
Definition quote_free (s : string) : bool :=
  all_chars (fun c => negb (is_quote c)) s.

(** A plain word: not empty, no tokenizer white space, no quote character. *)
Definition plain_word (w : string) : bool :=
  negb (String.eqb w EmptyString)
  && all_chars (fun c => negb (is_space c) && negb (is_quote c)) w.

(** The words, each one after a single space. *)
Fixpoint spaced (words : list string) : string :=
  match words with
  | [] => EmptyString
  | w :: ws => String " " (w ++ spaced ws)
  end.

(** A name of a directory entry: not empty, not [.] or [..], no slash. *)
Definition valid_name (name : string) : bool :=
  negb (PyStr.in_list name [EmptyString; "."; ".."])
  && all_chars (fun c => negb (Ascii.eqb c PosixPath.sep)) name.

(** The test [f] holds of some suffix of [s]. *)
Fixpoint any_suffix (f : string -> bool) (s : string) : bool :=
  f s ||
  match s with
  | EmptyString => false
  | String _ s' => any_suffix f s'
  end.

(** No string that [r] matches contains the character [q]. *)
Fixpoint avoids (q : ascii) (r : Re.regex) : bool :=
  match r with
  | Re.Empty | Re.Eps => true
  | Re.Chr c => negb (Ascii.eqb q c)
  | Re.Space => negb (PyStr.isspace q)
  | Re.OneOf items => negb (existsb (Re.item_has q) items)
  | Re.Cat r1 r2 | Re.Alt r1 r2 => avoids q r1 && avoids q r2
  | Re.Star r1 => avoids q r1
  end.

(** The double quote as a one-character string. *)
Definition dq : string := String Shlex.dquote EmptyString.

(** A command is dangerous when its lower-cased text contains a blocked
    literal or a match of a danger pattern. *)
Definition Dangerous (command : string) : Prop :=
  (exists blocked, In blocked BLOCKED_COMMANDS
                   /\ Substring blocked (PyStr.lower command))
  \/ (exists pattern, In pattern danger_patterns
                      /\ Occurs pattern (PyStr.lower command)).

(** The command gets past the three classifications to the host shell. *)
Definition reaches_host (command : string) : Prop :=
  _is_dangerous_command command = false
  /\ _is_directory_command command = Ok false
  /\ PyStr.in_list (PyStr.lower (PyStr.strip command)) ["exit"; "quit"] = false.

(** A host used in the examples: [/srv] and a few directories below it
    exist; every command prints its own text, padded with blanks. *)
Definition demo_host : Host := {|
  isdir := fun d =>
    PyStr.in_list d ["/"; "/srv"; "/srv/a b"; "/srv/a  b"; "/srv/formats"];
  communicate := fun command _ _ => Exited 0 ("  " ++ command ++ " ") EmptyString
|}.

(** A character that starts no blocked text, occurs in no directory verb and
    opens no quotation: not a quote, and not [r], [f] or [d] in either
    letter case. *)
Definition inert_char (c : ascii) : bool :=
  negb (is_quote c) && negb (PyStr.char_in (PyStr.lower_char c) "rfd").

(** The one process that a command reaching the host shell spawns. *)
Definition the_call (command current_directory : string) : popen_call :=
  {| popen_command := command; popen_cwd := current_directory;
     popen_timeout := 30 |}.

(** The notice that answers [exit] and [quit]. *)
Definition exit_notice : Outcome :=
  {| output := "Use the window close button to exit the application.";
     success := true;
     new_directory := None |}.

(** No line break occurs in [s]. *)
Definition one_line (s : string) : bool :=
  all_chars (fun c => negb (Ascii.eqb c LlamaClient.newline)) s.

(** A command as [_extract_commands] returns them: not empty, no white
    space at either end, not a comment, on one line. *)
Definition is_command (c : string) : bool :=
  negb (String.eqb c EmptyString)
  && String.eqb (PyStr.strip c) c
  && negb (PyStr.startswith c "#")
  && negb (PyStr.startswith c "//")
  && one_line c.

(** A response that puts [body] in a code block marked [lang]. *)
Definition fenced (lang body : string) : string :=
  "```" ++ lang ++ String LlamaClient.newline
        (body ++ String LlamaClient.newline "```").

(** The lines, each one followed by a line break. *)
Fixpoint terminated (lines : list string) : string :=
  match lines with
  | [] => EmptyString
  | l :: ls => l ++ String LlamaClient.newline (terminated ls)
  end.

(** [shown] is [line] with its leftmost [<DIR>], if it has one, replaced by
    the highlighted and escaped marker; the text around it is kept. *)
Definition Highlighted (line shown : string) : Prop :=
  (~ Substring "<DIR>" line /\ shown = line)
  \/ exists before after,
       line = before ++ "<DIR>" ++ after
       /\ (forall before' after',
              line = before' ++ "<DIR>" ++ after' ->
              String.length before <= String.length before')
       /\ shown = before ++ MainWindow.DIR_span ++ after.

(** The executor returns on [command]: the safety check blocks it or the
    tokenizer accepts it. *)
Definition runs (command : string) : bool :=
  _is_dangerous_command command
  || match Shlex.split command with
     | Ok _ => true
     | Raise _ => false
     end.

(** The commands of the assistant with the hosts they meet, from the [i]-th
    call of the executor on. *)
Definition timeline (hosts : nat -> Host) (i : nat) (cmds : list string)
  : list (Host * string) :=
  combine (map hosts (seq i (List.length cmds))) cmds.

(** The danger patterns other than the one for [format]. *)
Definition other_patterns : list Re.regex :=
  (firstn 2 danger_patterns ++ skipn 3 danger_patterns)%list.

(** The submission of [command] on the host [h], in the directory [from],
    sets the session's directory to [to]: the executor returns a success
    with [to] as the new directory, [h] reports [to] as a directory, and
    the caller's rule moves the session from [from] to [to]. *)
Definition sets_directory {os_path : OsPath}
  (h : Host) (command from to : string) : Prop :=
  exists o,
    fst (execute_command h command from) = Ok o
    /\ new_directory o = Some to
    /\ success o = true
    /\ isdir h to = true
    /\ session_update from (Ok o) = to.

(** No event is queued whenever [processEvents] is called. *)
Definition quiet (events : MainWindow.Events) : Prop :=
  forall n w, events n w = w.

(** The window after the two lines that open a run of the assistant. *)
Definition announced {os_path : OsPath} (events : MainWindow.Events)
  (w : MainWindow.Window) : MainWindow.Window :=
  MainWindow._append_to_terminal events
    (MainWindow._append_to_terminal events w EmptyString
       "Processing with AI..." (Some "#6E9EFF"))
    EmptyString "AI suggests the following command(s):" (Some "#6E9EFF").

(** * Facts about the library models *)

Module PyStrFacts.

Import PyStr.

Lemma startswith_app (p post : string) : startswith (p ++ post) p = true.
Proof.
  induction p as [|c p IH]; simpl; [reflexivity|].
  now rewrite IH, Ascii.eqb_refl.
Qed.

Lemma startswith_inv (p s : string) :
  startswith s p = true -> exists post, s = p ++ post.
Proof.
  revert s. induction p as [|c p IH]; intros s H.
  - exists s. reflexivity.
  - destruct s as [|d s]; simpl in H; [discriminate|].
    apply andb_true_iff in H. destruct H as [E H].
    apply Ascii.eqb_eq in E. subst d.
    destruct (IH _ H) as [post ->]. exists post. reflexivity.
Qed.

Lemma contains_nil (sub : string) :
  contains sub EmptyString = startswith EmptyString sub.
Proof. simpl. apply orb_false_r. Qed.

Lemma contains_cons (sub : string) (c : ascii) (s : string) :
  contains sub (String c s) = startswith (String c s) sub || contains sub s.
Proof. reflexivity. Qed.

Lemma contains_spec (sub s : string) :
  contains sub s = true <-> Substring sub s.
Proof.
  split.
  - induction s as [|c s IH]; intros H.
    + rewrite contains_nil in H. apply startswith_inv in H.
      destruct H as [post ->]. exists EmptyString, post. reflexivity.
    + rewrite contains_cons in H.
      apply orb_true_iff in H. destruct H as [H|H].
      * apply startswith_inv in H. destruct H as [post ->].
        exists EmptyString, post. reflexivity.
      * destruct (IH H) as (pre & post & ->).
        exists (String c pre), post. reflexivity.
  - intros (pre & post & ->). induction pre as [|c pre IH].
    + change (EmptyString ++ sub ++ post) with (sub ++ post).
      destruct (sub ++ post) eqn:E.
      * rewrite contains_nil, <- E. apply startswith_app.
      * rewrite contains_cons, <- E, startswith_app. reflexivity.
    + change (String c pre ++ sub ++ post)
        with (String c (pre ++ sub ++ post)).
      rewrite contains_cons, IH. apply orb_true_r.
Qed.

Lemma app_nil_r (s : string) : s ++ EmptyString = s.
Proof. induction s; simpl; congruence. Qed.

Lemma app_assoc (a b c : string) : (a ++ b) ++ c = a ++ (b ++ c).
Proof. induction a; simpl; congruence. Qed.

Lemma app_eq_nil (a b : string) :
  a ++ b = EmptyString -> a = EmptyString /\ b = EmptyString.
Proof. destruct a; simpl; [auto | discriminate]. Qed.

Lemma lower_app (a b : string) : lower (a ++ b) = lower a ++ lower b.
Proof. induction a; simpl; congruence. Qed.

Lemma all_chars_app (p : ascii -> bool) (a b : string) :
  all_chars p (a ++ b) = all_chars p a && all_chars p b.
Proof.
  induction a as [|c a IH]; simpl; [reflexivity|].
  now rewrite IH, andb_assoc.
Qed.

Lemma all_chars_weaken (p q : ascii -> bool) (s : string) :
  (forall c, p c = true -> q c = true) ->
  all_chars p s = true -> all_chars q s = true.
Proof.
  intros Hpq. induction s as [|c s IH]; simpl; [auto|].
  rewrite !andb_true_iff. intros [Hc Hs]. auto.
Qed.

End PyStrFacts.

Module ReFacts.

Import Re PyStrFacts.

Lemma Matches_Empty (s : string) : ~ Matches Empty s.
Proof. intros H. inversion H. Qed.

Lemma nullable_spec (r : regex) :
  nullable r = true <-> Matches r EmptyString.
Proof.
  split.
  - induction r; simpl; intros H; try discriminate.
    + constructor.
    + apply andb_true_iff in H. destruct H as [H1 H2].
      apply (MCat _ _ EmptyString EmptyString); auto.
    + apply orb_true_iff in H. destruct H; [apply MAltL | apply MAltR]; auto.
    + constructor.
  - intros H. remember EmptyString as e eqn:E.
    induction H; simpl; try discriminate; auto.
    + apply app_eq_nil in E. destruct E. rewrite IHMatches1, IHMatches2; auto.
    + rewrite IHMatches; auto.
    + rewrite IHMatches; auto using orb_true_r.
Qed.

Lemma Cat_inv (r1 r2 : regex) (s : string) :
  Matches (Cat r1 r2) s ->
  exists s1 s2, s = s1 ++ s2 /\ Matches r1 s1 /\ Matches r2 s2.
Proof. intros H. inversion H; subst. eauto. Qed.

Lemma Alt_inv (r1 r2 : regex) (s : string) :
  Matches (Alt r1 r2) s -> Matches r1 s \/ Matches r2 s.
Proof. intros H. inversion H; subst; auto. Qed.

Lemma Eps_inv (s : string) : Matches Eps s -> s = EmptyString.
Proof. intros H. inversion H. reflexivity. Qed.

Lemma mkCat_spec (r1 r2 : regex) (s : string) :
  Matches (mkCat r1 r2) s <-> Matches (Cat r1 r2) s.
Proof.
  split; intros H.
  - destruct r1; simpl in H; try (now inversion H);
      destruct r2; simpl in H; try (now inversion H); auto;
        apply (MCat Eps _ EmptyString s); auto; constructor.
  - destruct (Cat_inv _ _ _ H) as (t1 & t2 & -> & H1 & H2).
    destruct r1; simpl; try (now inversion H1);
      destruct r2; simpl; try (now inversion H2); auto;
        apply Eps_inv in H1; subst; simpl; auto.
Qed.

Lemma mkAlt_spec (r1 r2 : regex) (s : string) :
  Matches (mkAlt r1 r2) s <-> Matches (Alt r1 r2) s.
Proof.
  split; intros H.
  - destruct r1; simpl in H; try (now apply MAltR);
      destruct r2; simpl in H; auto; now apply MAltL.
  - destruct (Alt_inv _ _ _ H) as [H1 | H2].
    + destruct r1; simpl; try (now inversion H1); destruct r2; simpl; auto;
        now apply MAltL.
    + destruct r2; simpl; try (now inversion H2); destruct r1; simpl; auto;
        now apply MAltR.
Qed.

Lemma step_spec (b : bool) (s : string) :
  Matches (step b) s <-> b = true /\ s = EmptyString.
Proof.
  destruct b; simpl; split.
  - intros H. inversion H. auto.
  - intros [_ ->]. constructor.
  - intros H. inversion H.
  - intros [H _]. discriminate.
Qed.

Lemma Star_cons (r : regex) (c : ascii) (s : string) :
  Matches (Star r) (String c s) ->
  exists s1 s2, s = s1 ++ s2 /\ Matches r (String c s1) /\ Matches (Star r) s2.
Proof.
  intros H. remember (Star r) as sr eqn:Er.
  remember (String c s) as t eqn:Et.
  induction H; try discriminate.
  injection Er as ->.
  destruct s1 as [|d s1]; simpl in Et.
  - apply IHMatches2; auto.
  - injection Et as -> <-. eauto.
Qed.

Lemma deriv_spec (r : regex) (c : ascii) (s : string) :
  Matches (deriv c r) s <-> Matches r (String c s).
Proof.
  revert s. induction r; intros s; simpl.
  - split; intros H; inversion H.
  - split; intros H; inversion H.
  - rewrite step_spec. split.
    + intros [E ->]. apply Ascii.eqb_eq in E. subst. constructor.
    + intros H. inversion H; subst. split; auto. apply Ascii.eqb_refl.
  - rewrite step_spec. split.
    + intros [E ->]. now constructor.
    + intros H. inversion H; subst. auto.
  - rewrite step_spec. split.
    + intros [E ->]. now constructor.
    + intros H. inversion H; subst. auto.
  - rewrite mkAlt_spec. split.
    + intros H. apply Alt_inv in H. destruct H as [H | H].
      * apply mkCat_spec, Cat_inv in H.
        destruct H as (s1 & s2 & -> & H1 & H2).
        apply IHr1 in H1.
        apply (MCat r1 r2 (String c s1) s2); auto.
      * destruct (nullable r1) eqn:N; [|now inversion H].
        apply nullable_spec in N. apply IHr2 in H.
        apply (MCat r1 r2 EmptyString (String c s)); auto.
    + intros H. apply Cat_inv in H. destruct H as (s1 & s2 & E & H1 & H2).
      destruct s1 as [|d s1]; simpl in E.
      * subst s2. apply MAltR.
        apply nullable_spec in H1. rewrite H1. now apply IHr2.
      * injection E as <- ->. apply MAltL, mkCat_spec.
        constructor; auto. now apply IHr1.
  - rewrite mkAlt_spec. split.
    + intros H. apply Alt_inv in H. destruct H as [H | H].
      * apply MAltL; now apply IHr1.
      * apply MAltR; now apply IHr2.
    + intros H. apply Alt_inv in H. destruct H as [H | H].
      * apply MAltL; now apply IHr1.
      * apply MAltR; now apply IHr2.
  - rewrite mkCat_spec. split.
    + intros H. apply Cat_inv in H. destruct H as (s1 & s2 & -> & H1 & H2).
      apply IHr in H1.
      apply (MStarS r (String c s1) s2); auto.
    + intros H. apply Star_cons in H. destruct H as (s1 & s2 & -> & H1 & H2).
      constructor; auto. now apply IHr.
Qed.

Lemma match_prefix_spec (r : regex) (s : string) :
  match_prefix r s = true <-> exists m post, s = m ++ post /\ Matches r m.
Proof.
  revert r. induction s as [|c s IH]; intros r; simpl.
  - rewrite orb_false_r, nullable_spec. split.
    + intros H. exists EmptyString, EmptyString. auto.
    + intros (m & post & E & H). symmetry in E.
      apply app_eq_nil in E. destruct E; subst. auto.
  - rewrite orb_true_iff, nullable_spec, IH. split.
    + intros [H | (m & post & -> & H)].
      * exists EmptyString, (String c s). auto.
      * exists (String c m), post. split; auto. now apply deriv_spec.
    + intros (m & post & E & H). destruct m as [|d m]; simpl in E.
      * now left.
      * injection E as <- ->. right. exists m, post. split; auto.
        now apply deriv_spec.
Qed.

Lemma search_nil (r : regex) :
  search r EmptyString = match_prefix r EmptyString.
Proof. simpl. now rewrite !orb_false_r. Qed.

Lemma search_cons (r : regex) (c : ascii) (s : string) :
  search r (String c s) = match_prefix r (String c s) || search r s.
Proof. reflexivity. Qed.

Lemma search_spec (r : regex) (s : string) :
  search r s = true <-> Occurs r s.
Proof.
  unfold Occurs. induction s as [|c s IH].
  - rewrite search_nil, match_prefix_spec. split.
    + intros (m & post & E & H). exists EmptyString, m, post. auto.
    + intros (pre & m & post & E & H). symmetry in E.
      apply app_eq_nil in E. destruct E as [-> E].
      exists m, post. auto.
  - rewrite search_cons, orb_true_iff, match_prefix_spec, IH. split.
    + intros [(m & post & E & H) | (pre & m & post & -> & H)].
      * exists EmptyString, m, post. auto.
      * exists (String c pre), m, post. auto.
    + intros (pre & m & post & E & H). destruct pre as [|d pre]; simpl in E.
      * left. eauto.
      * injection E as <- ->. right. eauto.
Qed.

End ReFacts.

(** ** Tokens of plain words and of one quoted argument *)

Module ShlexFacts.

Import PyStrFacts.

Lemma spaced_join (w : string) (ws : list string) :
  spaced (w :: ws) = String " " (PyStr.join " " (w :: ws)).
Proof.
  revert w. induction ws as [|w' ws IH]; intros w.
  - simpl. now rewrite app_nil_r.
  - change (spaced (w :: w' :: ws)) with (String " " (w ++ spaced (w' :: ws))).
    rewrite IH. reflexivity.
Qed.

Lemma plain_word_quote_free (w : string) :
  plain_word w = true -> quote_free w = true.
Proof.
  unfold plain_word, quote_free. rewrite andb_true_iff. intros [_ H].
  revert H. apply all_chars_weaken.
  intros c. rewrite andb_true_iff. tauto.
Qed.

Lemma join_quote_free (words : list string) :
  Forall (fun w => plain_word w = true) words ->
  quote_free (PyStr.join " " words) = true.
Proof.
  induction 1 as [|w ws Hw Hws IH]; [reflexivity|].
  destruct ws as [|w' ws].
  - now apply plain_word_quote_free.
  - change (PyStr.join " " (w :: w' :: ws))
      with (w ++ String " " (PyStr.join " " (w' :: ws))).
    pose proof (plain_word_quote_free _ Hw) as Hq.
    unfold quote_free in *. rewrite all_chars_app, Hq. simpl. exact IH.
Qed.

(** The tokenizer has one way to fail: the input ends inside quotes. *)
Lemma read_tokens_raise (s : string) (st : Shlex.state) (token : string) (e : exn) :
  Shlex.read_tokens s st token = Raise e ->
  e = ValueError "No closing quotation".
Proof.
  revert st token. induction s as [|c s IH]; intros st token.
  - destruct st; simpl; congruence.
  - destruct st as [| |q]; cbn [Shlex.read_tokens].
    + destruct (PyStr.char_in c Shlex.whitespace); [apply IH|].
      destruct (PyStr.char_in c Shlex.quotes); apply IH.
    + destruct (PyStr.char_in c Shlex.whitespace); [|apply IH].
      unfold Shlex.emit.
      destruct (Shlex.read_tokens s Shlex.InSpace EmptyString) eqn:E;
        [discriminate|].
      intros [= <-]. now apply IH in E.
    + destruct (Ascii.eqb c q); [|apply IH].
      unfold Shlex.emit.
      destruct (Shlex.read_tokens s Shlex.InSpace EmptyString) eqn:E;
        [discriminate|].
      intros [= <-]. now apply IH in E.
Qed.

(** In a word, characters other than white space extend the token. *)
Lemma read_word (w rest token : string) :
  all_chars (fun c => negb (is_space c)) w = true ->
  Shlex.read_tokens (w ++ rest) Shlex.InWord token
  = Shlex.read_tokens rest Shlex.InWord (token ++ w).
Proof.
  revert token. induction w as [|c w IH]; intros token H.
  - now rewrite app_nil_r.
  - simpl in H. apply andb_true_iff in H. destruct H as [Hc Hw].
    apply negb_true_iff in Hc. unfold is_space in Hc.
    change (String c w ++ rest) with (String c (w ++ rest)).
    cbn [Shlex.read_tokens]. rewrite Hc, (IH _ Hw).
    unfold Shlex.snoc. now rewrite app_assoc.
Qed.

(** After a word, plain words that follow single spaces are the tokens. *)
Lemma read_spaced (words : list string) (token : string) :
  Forall (fun w => plain_word w = true) words ->
  Shlex.read_tokens (spaced words) Shlex.InWord token = Ok (token :: words).
Proof.
  intros H. revert token.
  induction H as [|w ws Hw Hws IH]; intros token; [reflexivity|].
  unfold plain_word in Hw. apply andb_true_iff in Hw. destruct Hw as [Hne Hw].
  destruct w as [|c w]; [discriminate|].
  simpl in Hw. rewrite !andb_true_iff in Hw. destruct Hw as [[Hs Hq] Hw].
  apply negb_true_iff in Hs, Hq. unfold is_space, is_quote in Hs, Hq.
  change (spaced (String c w :: ws))
    with (String " " (String c (w ++ spaced ws))).
  cbn [Shlex.read_tokens]. change (PyStr.char_in " " Shlex.whitespace) with true.
  cbn iota. rewrite Hs, Hq, read_word, IH; [reflexivity|].
  revert Hw. apply all_chars_weaken.
  intros d. rewrite andb_true_iff. tauto.
Qed.

(** Inside double quotes everything up to the closing quote is one token. *)
Lemma read_quoted (body rest token : string) :
  all_chars (fun c => negb (Ascii.eqb c Shlex.dquote)) body = true ->
  Shlex.read_tokens (body ++ String Shlex.dquote rest)
    (Shlex.InQuote Shlex.dquote) token
  = Shlex.emit (token ++ body ++ String Shlex.dquote EmptyString)
      (Shlex.read_tokens rest Shlex.InSpace EmptyString).
Proof.
  revert token. induction body as [|c body IH]; intros token H.
  - reflexivity.
  - simpl in H. apply andb_true_iff in H. destruct H as [Hc Hb].
    apply negb_true_iff in Hc.
    change (String c body ++ String Shlex.dquote rest)
      with (String c (body ++ String Shlex.dquote rest)).
    cbn [Shlex.read_tokens]. rewrite Hc, (IH _ Hb).
    unfold Shlex.snoc. now rewrite app_assoc.
Qed.

Lemma quote_free_no_dquote (s : string) :
  quote_free s = true ->
  all_chars (fun c => negb (Ascii.eqb c Shlex.dquote)) s = true.
Proof.
  apply all_chars_weaken. intros c. unfold is_quote. simpl.
  destruct (Ascii.eqb c Shlex.dquote); [|reflexivity].
  now rewrite orb_true_r.
Qed.

(** [cd w1 w2 ...] *)
Lemma split_cd_words (words : list string) :
  words <> [] ->
  Forall (fun w => plain_word w = true) words ->
  Shlex.split ("cd " ++ PyStr.join " " words) = Ok ("cd" :: words).
Proof.
  intros Hne H. destruct words as [|w ws]; [congruence|].
  change ("cd " ++ PyStr.join " " (w :: ws))
    with (String "c" (String "d" (String " " (PyStr.join " " (w :: ws))))).
  rewrite <- spaced_join. unfold Shlex.split.
  cbn [Shlex.read_tokens].
  change (PyStr.char_in "c" Shlex.whitespace) with false.
  change (PyStr.char_in "c" Shlex.quotes) with false.
  change (PyStr.char_in "d" Shlex.whitespace) with false.
  cbn iota. now apply read_spaced.
Qed.

(** [cd "body"] *)
Lemma split_cd_quoted (body : string) :
  quote_free body = true ->
  Shlex.split ("cd " ++ String Shlex.dquote (body ++ String Shlex.dquote EmptyString))
  = Ok ["cd"; String Shlex.dquote (body ++ String Shlex.dquote EmptyString)].
Proof.
  intros H. unfold Shlex.split.
  change ("cd " ++ String Shlex.dquote (body ++ String Shlex.dquote EmptyString))
    with (String "c" (String "d" (String " "
            (String Shlex.dquote (body ++ String Shlex.dquote EmptyString))))).
  cbn [Shlex.read_tokens].
  change (PyStr.char_in "c" Shlex.whitespace) with false.
  change (PyStr.char_in "c" Shlex.quotes) with false.
  change (PyStr.char_in "d" Shlex.whitespace) with false.
  change (PyStr.char_in " " Shlex.whitespace) with true.
  change (PyStr.char_in Shlex.dquote Shlex.whitespace) with false.
  change (PyStr.char_in Shlex.dquote Shlex.quotes) with true.
  cbn iota. rewrite read_quoted by now apply quote_free_no_dquote.
  reflexivity.
Qed.

(** Stripping characters that do not occur changes nothing. *)
Lemma lstrip_by_head (p : ascii -> bool) (s : string) :
  all_chars (fun c => negb (p c)) s = true -> PyStr.lstrip_by p s = s.
Proof.
  destruct s as [|c s]; simpl; [reflexivity|].
  rewrite andb_true_iff, negb_true_iff. now intros [-> _].
Qed.

Lemma rstrip_by_none (p : ascii -> bool) (s : string) :
  all_chars (fun c => negb (p c)) s = true -> PyStr.rstrip_by p s = s.
Proof.
  induction s as [|c s IH]; simpl; [reflexivity|].
  rewrite andb_true_iff, negb_true_iff. intros [Hc Hs].
  rewrite (IH Hs), Hc. now destruct s.
Qed.

Lemma rstrip_by_last (p : ascii -> bool) (s : string) (q : ascii) :
  p q = true ->
  all_chars (fun c => negb (p c)) s = true ->
  PyStr.rstrip_by p (s ++ String q EmptyString) = s.
Proof.
  intros Hq. induction s as [|c s IH]; simpl.
  - now rewrite Hq.
  - rewrite andb_true_iff, negb_true_iff. intros [Hc Hs].
    rewrite (IH Hs), Hc. now destruct s.
Qed.

Lemma cd_target_words (words : list string) :
  Forall (fun w => plain_word w = true) words ->
  cd_target words = PyStr.join " " words.
Proof.
  intros H. apply join_quote_free in H. unfold cd_target, PyStr.strip_chars.
  rewrite lstrip_by_head by exact H. now apply rstrip_by_none.
Qed.

Lemma cd_target_quoted (body : string) :
  quote_free body = true ->
  cd_target [String Shlex.dquote (body ++ String Shlex.dquote EmptyString)]
  = body.
Proof.
  intros H. unfold cd_target, PyStr.strip_chars.
  cbn [PyStr.join PyStr.lstrip_by].
  change (PyStr.char_in Shlex.dquote Shlex.quotes) with true. cbn iota.
  destruct body as [|c body].
  - reflexivity.
  - change (String c body ++ String Shlex.dquote EmptyString)
      with (String c (body ++ String Shlex.dquote EmptyString)).
    cbn [PyStr.lstrip_by].
    pose proof H as H'. unfold quote_free in H'. simpl in H'.
    apply andb_true_iff in H'. destruct H' as [Hc _].
    apply negb_true_iff in Hc. unfold is_quote in Hc. rewrite Hc.
    change (String c (body ++ String Shlex.dquote EmptyString))
      with (String c body ++ String Shlex.dquote EmptyString).
    apply rstrip_by_last; [reflexivity | exact H].
Qed.

End ShlexFacts.

(** ** [posixpath]: the parent of a directory *)

Module PosixFacts.

Import PyStrFacts PosixPath.

Lemma split_nonempty (s : string) : PyStr.split sep s <> [].
Proof.
  destruct s as [|c s]; simpl; [discriminate|].
  destruct (Ascii.eqb c sep); [discriminate|].
  destruct (PyStr.split sep s); discriminate.
Qed.

Lemma split_app (a b : string) :
  PyStr.split sep (a ++ String sep b)
  = (PyStr.split sep a ++ PyStr.split sep b)%list.
Proof.
  induction a as [|c a IH]; simpl.
  - reflexivity.
  - destruct (Ascii.eqb c sep).
    + now rewrite IH.
    + rewrite IH. pose proof (split_nonempty a) as Hne.
      destruct (PyStr.split sep a); [congruence | reflexivity].
Qed.

Lemma split_name (w : string) :
  all_chars (fun c => negb (Ascii.eqb c sep)) w = true ->
  PyStr.split sep w = [w].
Proof.
  induction w as [|c w IH]; simpl; [reflexivity|].
  rewrite andb_true_iff, negb_true_iff. intros [-> Hw].
  now rewrite (IH Hw).
Qed.

Lemma endswith_sep_inv (s : string) :
  endswith_sep s = true -> exists s0, s = s0 ++ String sep EmptyString.
Proof.
  induction s as [|c s IH]; [discriminate|].
  destruct s as [|d s].
  - simpl. intros H. apply Ascii.eqb_eq in H. subst. now exists EmptyString.
  - intros H. destruct (IH H) as [s0 E]. exists (String c s0).
    simpl. now rewrite <- E.
Qed.

Lemma endswith_sep_app_name (a name : string) :
  valid_name name = true -> endswith_sep (a ++ name) = false.
Proof.
  unfold valid_name. rewrite andb_true_iff. intros [Hn Hc].
  destruct name as [|c name]; [discriminate|]. clear Hn.
  revert c Hc. induction a as [|d a IH]; intros c Hc.
  - simpl. revert c Hc. induction name as [|e name IHn]; intros c Hc.
    + simpl in *. now destruct (Ascii.eqb c sep).
    + simpl in Hc. apply andb_true_iff in Hc. destruct Hc as [_ Hc].
      now apply IHn.
  - change (String d a ++ String c name) with (String d (a ++ String c name)).
    specialize (IH c Hc). destruct (a ++ String c name) eqn:E.
    + destruct a; discriminate.
    + exact IH.
Qed.

#[local] Arguments Ascii.eqb : simpl never.

Ltac by_first_characters :=
  repeat match goal with
         | |- context [Ascii.eqb ?u ?v] =>
             destruct (Ascii.eqb_spec u v); subst; simpl in *
         | H : context [Ascii.eqb ?u ?v] |- _ =>
             destruct (Ascii.eqb_spec u v); subst; simpl in *
         end; unfold sep in *; try congruence.

(** The leading slashes are counted on the first three characters. *)
Lemma initial_slashes_app_char (p x : string) (c : ascii) :
  isabs p = true -> Ascii.eqb c sep = false ->
  initial_slashes (p ++ String c x) = initial_slashes p.
Proof.
  intros Ha Hc. apply Ascii.eqb_neq in Hc.
  unfold initial_slashes, isabs, sep in *.
  destruct p as [|a [|b [|e p]]]; simpl in *; by_first_characters.
Qed.

Lemma initial_slashes_app_open (p x : string) :
  isabs p = true -> endswith_sep p = false ->
  initial_slashes (p ++ x) = initial_slashes p.
Proof.
  intros Ha He.
  unfold initial_slashes, isabs, sep in *.
  destruct p as [|a [|b [|e p]]]; simpl in *; by_first_characters.
Qed.

Lemma norm_step_skip (initial : nat) (comps : list string) :
  norm_step initial comps EmptyString = comps.
Proof. reflexivity. Qed.

Lemma norm_step_name (initial : nat) (comps : list string) (name : string) :
  valid_name name = true ->
  norm_step initial comps name = (comps ++ [name])%list.
Proof.
  unfold valid_name, norm_step. rewrite andb_true_iff, negb_true_iff.
  intros [Hn _]. simpl in Hn.
  rewrite !orb_false_iff in Hn. destruct Hn as (H0 & H1 & H2 & _).
  simpl. now rewrite H0, H1, H2.
Qed.

Lemma norm_step_up (initial : nat) (comps : list string) (name : string) :
  valid_name name = true -> initial <> 0 ->
  norm_step initial (comps ++ [name]) ".." = comps.
Proof.
  unfold valid_name. rewrite andb_true_iff, negb_true_iff.
  intros [Hn _] Hi. simpl in Hn.
  rewrite !orb_false_iff in Hn. destruct Hn as (_ & _ & H2 & _).
  unfold norm_step.
  change (PyStr.in_list ".." [EmptyString; "."]) with false.
  change (negb (".." =? "..")%string) with false.
  rewrite last_last, removelast_last, H2.
  apply Nat.eqb_neq in Hi. rewrite Hi. simpl. now rewrite andb_false_r.
Qed.

Lemma initial_slashes_isabs (p : string) :
  isabs p = true -> initial_slashes p <> 0.
Proof.
  unfold initial_slashes, isabs. intros ->.
  now destruct (PyStr.startswith p "//" && negb (PyStr.startswith p "///")).
Qed.

Lemma join_relative (a b : string) :
  PyStr.startswith b "/" = false ->
  a <> EmptyString -> endswith_sep a = false ->
  join a b = a ++ String sep b.
Proof.
  intros Hb Ha He. unfold join. rewrite Hb, He.
  destruct a; [congruence | reflexivity].
Qed.

Lemma valid_name_relative (name : string) :
  valid_name name = true -> PyStr.startswith name "/" = false.
Proof.
  unfold valid_name. rewrite andb_true_iff. intros [_ H].
  destruct name as [|c name]; [reflexivity|].
  simpl in H. apply andb_true_iff in H. destruct H as [H _].
  apply negb_true_iff in H. simpl.
  rewrite Ascii.eqb_sym. unfold sep in H. now rewrite H.
Qed.

(** The components of [join p name] are those of [p] and then [name]. *)
Lemma fold_join_name (initial : nat) (p name : string) :
  isabs p = true -> valid_name name = true ->
  fold_left (norm_step initial) (PyStr.split sep (join p name)) []
  = (fold_left (norm_step initial) (PyStr.split sep p) [] ++ [name])%list.
Proof.
  intros Ha Hn. pose proof (valid_name_relative _ Hn) as Hr.
  assert (Hs : PyStr.split sep name = [name]).
  { apply split_name. unfold valid_name in Hn.
    now apply andb_true_iff in Hn. }
  unfold join. rewrite Hr.
  destruct p as [|a p]; [discriminate|]. cbn [String.eqb orb].
  destruct (endswith_sep (String a p)) eqn:He.
  - destruct (endswith_sep_inv _ He) as [p0 ->].
    rewrite app_assoc. cbn [append].
    rewrite !split_app, Hs, !fold_left_app. simpl.
    now apply norm_step_name.
  - change (String a p ++ "/" ++ name) with (String a p ++ String sep name).
    rewrite split_app, Hs, fold_left_app. simpl.
    now apply norm_step_name.
Qed.

Lemma initial_slashes_join_name (p name x : string) :
  isabs p = true -> valid_name name = true ->
  initial_slashes (join p name ++ x) = initial_slashes p.
Proof.
  intros Ha Hn. pose proof (valid_name_relative _ Hn) as Hr.
  unfold join. rewrite Hr.
  destruct p as [|a p]; [discriminate|]. cbn [String.eqb orb].
  destruct (endswith_sep (String a p)) eqn:He.
  - destruct name as [|c name]; [discriminate|].
    rewrite app_assoc.
    change (String c name ++ x) with (String c (name ++ x)).
    apply initial_slashes_app_char; auto.
    simpl in Hr. rewrite andb_true_r in Hr. now rewrite Ascii.eqb_sym.
  - rewrite app_assoc. now apply initial_slashes_app_open.
Qed.

Lemma isabs_join_name (p name : string) :
  isabs p = true -> join p name <> EmptyString.
Proof.
  intros Ha. unfold join. destruct p as [|a p]; [discriminate|].
  destruct (PyStr.startswith name "/") eqn:Hn.
  - intros ->. discriminate.
  - destruct (_ || _); discriminate.
Qed.

(** [normpath(join(join(p, name), '..'))] is [normpath(p)]. *)
Lemma normpath_parent (p name : string) :
  isabs p = true -> valid_name name = true ->
  normpath (join (join p name) "..") = normpath p.
Proof.
  intros Ha Hn.
  assert (He : endswith_sep (join p name) = false).
  { pose proof (valid_name_relative _ Hn) as Hr. unfold join. rewrite Hr.
    destruct (_ || _).
    - now apply endswith_sep_app_name.
    - rewrite <- app_assoc. now apply endswith_sep_app_name. }
  rewrite (join_relative _ ".."); auto using isabs_join_name.
  unfold normpath.
  assert (E1 : String.eqb (join p name ++ String sep "..") EmptyString = false).
  { now destruct (join p name). }
  assert (E2 : String.eqb p EmptyString = false).
  { destruct p; [discriminate | reflexivity]. }
  rewrite E1, E2.
  rewrite (initial_slashes_join_name p name (String sep "..") Ha Hn).
  rewrite split_app, fold_left_app, fold_join_name by assumption.
  change (PyStr.split sep "..") with [".."]. cbn [fold_left].
  rewrite norm_step_up; auto using initial_slashes_isabs.
Qed.

End PosixFacts.

(** ** The safety check does not see the quotes around an argument *)

Module DangerFacts.

Import Re PyStrFacts ShlexFacts.

Lemma contains_any_suffix (sub s : string) :
  PyStr.contains sub s = any_suffix (fun t => PyStr.startswith t sub) s.
Proof.
  induction s as [|c s IH]; [reflexivity|].
  rewrite contains_cons, IH. reflexivity.
Qed.

Lemma search_any_suffix (r : regex) (s : string) :
  search r s = any_suffix (match_prefix r) s.
Proof.
  induction s as [|c s IH]; [reflexivity|].
  rewrite ReFacts.search_cons, IH. reflexivity.
Qed.

Lemma any_suffix_cons (f : string -> bool) (c : ascii) (s : string) :
  any_suffix f (String c s) = f (String c s) || any_suffix f s.
Proof. reflexivity. Qed.

(** A test that cannot tell a trailing [q] sees the same suffixes. *)
Lemma any_suffix_snoc (f : string -> bool) (q : ascii) (s : string) :
  (forall t, f (t ++ String q EmptyString) = f t) ->
  any_suffix f (s ++ String q EmptyString) = any_suffix f s.
Proof.
  intros Hf. induction s as [|c s IH].
  - pose proof (Hf EmptyString) as E. simpl in E. simpl. rewrite E.
    now destruct (f EmptyString).
  - change (String c s ++ String q EmptyString)
      with (String c (s ++ String q EmptyString)).
    rewrite !any_suffix_cons, IH.
    change (String c (s ++ String q EmptyString))
      with (String c s ++ String q EmptyString).
    now rewrite Hf.
Qed.

(** The suffixes of [cd "body"] and of [cd body], for a test that fails on
    the four leading suffixes and cannot tell a trailing double quote. *)
Lemma any_suffix_cd_quoted (f : string -> bool) (body : string) :
  (forall x, f (String "c" x) = false) ->
  (forall x, f (String "d" (String " " x)) = false) ->
  (forall x, f (String " " x) = false) ->
  (forall x, f (String Shlex.dquote x) = false) ->
  (forall t, f (t ++ String Shlex.dquote EmptyString) = f t) ->
  any_suffix f ("cd " ++ String Shlex.dquote (body ++ String Shlex.dquote EmptyString))
  = any_suffix f ("cd " ++ body).
Proof.
  intros Hc Hd Hs Hq Hf.
  change ("cd " ++ String Shlex.dquote (body ++ String Shlex.dquote EmptyString))
    with (String "c" (String "d" (String " "
            (String Shlex.dquote (body ++ String Shlex.dquote EmptyString))))).
  change ("cd " ++ body) with (String "c" (String "d" (String " " body))).
  rewrite !any_suffix_cons, !Hc, !Hd, !Hs, Hq. cbn [orb].
  now apply any_suffix_snoc.
Qed.

Lemma startswith_snoc (sub t : string) (q : ascii) :
  PyStr.char_in q sub = false ->
  PyStr.startswith (t ++ String q EmptyString) sub = PyStr.startswith t sub.
Proof.
  revert t. induction sub as [|c sub IH]; intros t H.
  - reflexivity.
  - simpl in H. apply orb_false_iff in H. destruct H as [Hqc Hsub].
    destruct t as [|d t]; simpl.
    + rewrite Ascii.eqb_sym in Hqc. now rewrite Hqc.
    + now rewrite IH.
Qed.

Lemma match_prefix_Empty (s : string) : match_prefix Empty s = false.
Proof. induction s; simpl; auto. Qed.

Lemma match_prefix_cons (r : regex) (c : ascii) (s : string) :
  match_prefix r (String c s) = nullable r || match_prefix (deriv c r) s.
Proof. reflexivity. Qed.

(** Reading one, or two, characters that the pattern cannot start with. *)
Lemma match_prefix_dead1 (r : regex) (c : ascii) (x : string) :
  nullable r = false -> deriv c r = Empty ->
  match_prefix r (String c x) = false.
Proof.
  intros N D. now rewrite match_prefix_cons, N, D, match_prefix_Empty.
Qed.

Lemma match_prefix_dead2 (r : regex) (c d : ascii) (x : string) :
  nullable r = false -> nullable (deriv c r) = false ->
  deriv d (deriv c r) = Empty ->
  match_prefix r (String c (String d x)) = false.
Proof.
  intros N N' D. rewrite match_prefix_cons, N. now apply match_prefix_dead1.
Qed.

Lemma deriv_avoided (q : ascii) (r : regex) :
  avoids q r = true -> deriv q r = Empty.
Proof.
  induction r; simpl; intros H; auto.
  - apply negb_true_iff in H. now rewrite H.
  - apply negb_true_iff in H. now rewrite H.
  - apply negb_true_iff in H. now rewrite H.
  - apply andb_true_iff in H. destruct H as [H1 H2].
    rewrite (IHr1 H1), (IHr2 H2). now destruct (nullable r1).
  - apply andb_true_iff in H. destruct H as [H1 H2].
    now rewrite (IHr1 H1), (IHr2 H2).
  - now rewrite (IHr H).
Qed.

Lemma avoids_mkCat (q : ascii) (r1 r2 : regex) :
  avoids q r1 = true -> avoids q r2 = true -> avoids q (mkCat r1 r2) = true.
Proof.
  intros H1 H2. destruct r1; simpl; auto; destruct r2; simpl; auto;
    simpl in H1, H2; rewrite ?H1, ?H2; auto.
Qed.

Lemma avoids_mkAlt (q : ascii) (r1 r2 : regex) :
  avoids q r1 = true -> avoids q r2 = true -> avoids q (mkAlt r1 r2) = true.
Proof.
  intros H1 H2. destruct r1; simpl; auto; destruct r2; simpl; auto;
    simpl in H1, H2; rewrite ?H1, ?H2; auto.
Qed.

Lemma avoids_step (q : ascii) (b : bool) : avoids q (step b) = true.
Proof. now destruct b. Qed.

Lemma avoids_deriv (q c : ascii) (r : regex) :
  avoids q r = true -> avoids q (deriv c r) = true.
Proof.
  induction r; simpl; intros H; auto using avoids_step.
  - apply andb_true_iff in H. destruct H as [H1 H2].
    apply avoids_mkAlt.
    + apply avoids_mkCat; auto.
    + destruct (nullable r1); auto.
  - apply andb_true_iff in H. destruct H as [H1 H2].
    apply avoids_mkAlt; auto.
  - apply avoids_mkCat; auto.
Qed.

Lemma match_prefix_snoc (r : regex) (q : ascii) (t : string) :
  avoids q r = true ->
  match_prefix r (t ++ String q EmptyString) = match_prefix r t.
Proof.
  revert r. induction t as [|c t IH]; intros r H.
  - simpl. now rewrite (deriv_avoided _ _ H).
  - change (String c t ++ String q EmptyString)
      with (String c (t ++ String q EmptyString)).
    rewrite !match_prefix_cons, IH; auto using avoids_deriv.
Qed.

Lemma existsb_agree {A : Type} (f g : A -> bool) (l : list A) :
  (forall x, In x l -> f x = g x) -> existsb f l = existsb g l.
Proof.
  induction l as [|a l IH]; intros H; simpl; [reflexivity|].
  rewrite (H a), IH; auto with datatypes.
Qed.

Lemma lower_char_is_quote (c : ascii) :
  is_quote (PyStr.lower_char c) = is_quote c.
Proof. destruct c as [[] [] [] [] [] [] [] []]; reflexivity. Qed.

Lemma lower_quote_free (s : string) :
  quote_free (PyStr.lower s) = quote_free s.
Proof.
  unfold quote_free. induction s as [|c s IH]; simpl; [reflexivity|].
  now rewrite lower_char_is_quote, IH.
Qed.

(** The safety check gives the same verdict on [cd "body"] and [cd body]. *)
Lemma is_dangerous_cd_quoted (body : string) :
  _is_dangerous_command
    ("cd " ++ String Shlex.dquote (body ++ String Shlex.dquote EmptyString))
  = _is_dangerous_command ("cd " ++ body).
Proof.
  unfold _is_dangerous_command.
  rewrite !lower_app.
  change (PyStr.lower "cd ") with "cd ".
  change (PyStr.lower (String Shlex.dquote (body ++ String Shlex.dquote EmptyString)))
    with (String Shlex.dquote (PyStr.lower (body ++ String Shlex.dquote EmptyString))).
  rewrite lower_app.
  change (PyStr.lower (String Shlex.dquote EmptyString))
    with (String Shlex.dquote EmptyString).
  f_equal; apply existsb_agree; intros x Hx.
  - rewrite !contains_any_suffix.
    simpl in Hx. decompose [or] Hx; try contradiction; subst x;
      (apply any_suffix_cd_quoted;
       [ reflexivity | reflexivity | reflexivity | reflexivity
       | intros t; now apply startswith_snoc ]).
  - rewrite !search_any_suffix.
    simpl in Hx. decompose [or] Hx; try contradiction; subst x;
      (apply any_suffix_cd_quoted;
       [ intros; now apply match_prefix_dead1
       | intros; now apply match_prefix_dead2
       | intros; now apply match_prefix_dead1
       | intros; now apply match_prefix_dead1
       | intros t; now apply match_prefix_snoc ]).
Qed.

End DangerFacts.

(** * Facts about the executor *)

Section ExecutorFacts.

Context {os_path : OsPath}.

Lemma is_dangerous_spec (command : string) :
  _is_dangerous_command command = true <-> Dangerous command.
Proof.
  unfold _is_dangerous_command, Dangerous.
  rewrite orb_true_iff, !existsb_exists.
  split; (intros [(x & Hin & H) | (x & Hin & H)]; [left | right]);
    exists x; split; auto;
    first [ now apply PyStrFacts.contains_spec
          | now apply ReFacts.search_spec ].
Qed.

Lemma dangerous_first (h : Host) (command current_directory : string) :
  _is_dangerous_command command = true ->
  execute_command h command current_directory = (Ok blocked_outcome, []).
Proof. intros H. unfold execute_command. now rewrite H. Qed.

Lemma is_directory_command_tokens (command first : string) (args : list string) :
  Shlex.split command = Ok (first :: args) ->
  _is_directory_command command
  = Ok (PyStr.in_list (PyStr.lower first) DIRECTORY_COMMANDS).
Proof. intros H. unfold _is_directory_command. now rewrite H. Qed.

(** A non-dangerous [cd] or [chdir] with at least one argument. *)
Lemma cd_with_argument
  (h : Host) (command current_directory first arg : string)
  (args : list string) :
  _is_dangerous_command command = false ->
  Shlex.split command = Ok (first :: arg :: args) ->
  PyStr.lower first = "cd" \/ PyStr.lower first = "chdir" ->
  execute_command h command current_directory
  = (let target := cd_target (arg :: args) in
     let new_dir := resolve current_directory target in
     if isdir h new_dir then
       Ok {| output := "Changed directory to: " ++ new_dir;
             success := true; new_directory := Some new_dir |}
     else
       Ok {| output := "The system cannot find the path specified: " ++ target;
             success := false; new_directory := None |}, []).
Proof.
  intros Hd Hs Hb. unfold execute_command. rewrite Hd.
  rewrite (is_directory_command_tokens _ _ _ Hs).
  unfold _handle_directory_command. rewrite Hs.
  destruct Hb as [-> | ->]; cbn -[cd_target resolve];
    destruct (isdir h _); reflexivity.
Qed.

(** Whatever the executor returns with a new directory comes from the
    successful branch of the directory handler. *)
Lemma handler_new_directory
  (h : Host) (command current_directory nd : string) (o : Outcome) :
  _handle_directory_command h command current_directory = Ok o ->
  new_directory o = Some nd ->
  success o = true /\ isdir h nd = true
  /\ output o = "Changed directory to: " ++ nd
  /\ exists first args,
       Shlex.split command = Ok (first :: args) /\ args <> []
       /\ (PyStr.lower first = "cd" \/ PyStr.lower first = "chdir")
       /\ nd = resolve current_directory (cd_target args).
Proof.
  unfold _handle_directory_command.
  destruct (Shlex.split command) as [[|first args]|e] eqn:Hs; try discriminate.
  destruct (String.eqb (PyStr.lower first) "cd"
            || String.eqb (PyStr.lower first) "chdir") eqn:Hb.
  - destruct args as [|arg args].
    + intros [= <-]. discriminate.
    + destruct (isdir h _) eqn:Hdir; intros [= <-]; [|discriminate].
      cbn [new_directory success output]. intros [= <-].
      repeat split; auto.
      exists first, (arg :: args). repeat split; auto; try discriminate.
      apply orb_true_iff in Hb.
      destruct Hb as [Hb | Hb]; apply String.eqb_eq in Hb; auto.
  - intros [= <-]. discriminate.
Qed.

Lemma report_no_directory (c : completion) : new_directory (report c) = None.
Proof.
  destruct c as [rc out err| |e]; simpl; auto.
  destruct (rc =? 0)%Z; reflexivity.
Qed.

(** The executor returns an outcome on every input but those on which the
    tokenizer fails; there the failure reaches the caller. *)
Lemma execute_command_returns_or_raises
  (h : Host) (command current_directory : string) :
  (exists o calls,
      execute_command h command current_directory = (Ok o, calls))
  \/ (Shlex.split command = Raise (ValueError "No closing quotation")
      /\ execute_command h command current_directory
         = (Raise (ValueError "No closing quotation"), [])).
Proof.
  unfold execute_command, _is_directory_command, _handle_directory_command.
  destruct (_is_dangerous_command command); [left; eauto|].
  destruct (Shlex.split command) as [[|first args]|e] eqn:Hs.
  - destruct (PyStr.in_list _ _); left; eauto.
  - destruct (PyStr.in_list (PyStr.lower first) DIRECTORY_COMMANDS).
    + destruct (_ || _); [|left; eauto].
      destruct args; [left; eauto|].
      destruct (isdir h _); left; eauto.
    + destruct (PyStr.in_list _ _); left; eauto.
  - right. apply ShlexFacts.read_tokens_raise in Hs. subst e. auto.
Qed.

End ExecutorFacts.

(** ** Commands made of inert characters *)

Module InertFacts.

Import Re PyStrFacts ShlexFacts DangerFacts.

Lemma existsb_none {A : Type} (f : A -> bool) (l : list A) :
  (forall x, In x l -> f x = false) -> existsb f l = false.
Proof.
  induction l as [|a l IH]; intros H; simpl; [reflexivity|].
  rewrite (H a), IH; auto with datatypes.
Qed.

Lemma any_suffix_none (f : string -> bool) (p : ascii -> bool) (s : string) :
  f EmptyString = false ->
  (forall c x, p c = true -> f (String c x) = false) ->
  all_chars p s = true -> any_suffix f s = false.
Proof.
  intros H0 Hc. induction s as [|c s IH]; simpl.
  - intros _. now rewrite H0.
  - rewrite andb_true_iff. intros [Hp Hs]. now rewrite (Hc c s Hp), IH.
Qed.

Lemma lower_all_chars (p : ascii -> bool) (s : string) :
  all_chars p (PyStr.lower s) = all_chars (fun c => p (PyStr.lower_char c)) s.
Proof. induction s as [|c s IH]; simpl; [reflexivity | now rewrite IH]. Qed.

Lemma other_start (c : ascii) :
  PyStr.char_in c "rfd" = false ->
  Ascii.eqb "r" c = false /\ Ascii.eqb "f" c = false /\ Ascii.eqb "d" c = false.
Proof.
  simpl. rewrite !orb_false_iff, !(Ascii.eqb_sym c). tauto.
Qed.

(** Every blocked literal starts with [r], [f] or [d]. *)
Lemma literal_needs_start (blocked : string) (c : ascii) (x : string) :
  In blocked BLOCKED_COMMANDS ->
  PyStr.char_in c "rfd" = false ->
  PyStr.startswith (String c x) blocked = false.
Proof.
  intros Hin H. apply other_start in H. destruct H as (Hr & Hf & Hd).
  simpl in Hin. decompose [or] Hin; try contradiction; subst blocked;
    cbn [PyStr.startswith]; rewrite ?Hr, ?Hf, ?Hd; reflexivity.
Qed.

(** So does every match of a danger pattern. *)
Lemma pattern_needs_start (pattern : regex) (c : ascii) (x : string) :
  In pattern danger_patterns ->
  PyStr.char_in c "rfd" = false ->
  match_prefix pattern (String c x) = false.
Proof.
  intros Hin H. apply match_prefix_dead1.
  - simpl in Hin. decompose [or] Hin; try contradiction; subst pattern;
      reflexivity.
  - revert H. simpl in Hin.
    decompose [or] Hin; try contradiction; subst pattern;
      destruct c as [[] [] [] [] [] [] [] []]; vm_compute;
      intros H; first [reflexivity | discriminate H].
Qed.

Lemma inert_char_start (c : ascii) :
  inert_char c = true -> PyStr.char_in (PyStr.lower_char c) "rfd" = false.
Proof.
  unfold inert_char. rewrite andb_true_iff, !negb_true_iff. tauto.
Qed.

Lemma inert_char_quote (c : ascii) :
  inert_char c = true -> is_quote c = false.
Proof.
  unfold inert_char. rewrite andb_true_iff, !negb_true_iff. tauto.
Qed.

Lemma inert_not_dangerous (command : string) :
  all_chars inert_char command = true ->
  _is_dangerous_command command = false.
Proof.
  intros H.
  assert (Hl : all_chars (fun c => negb (PyStr.char_in c "rfd"))
                 (PyStr.lower command) = true).
  { rewrite lower_all_chars. revert H. apply all_chars_weaken.
    intros c Hc. now rewrite (inert_char_start c Hc). }
  unfold _is_dangerous_command. apply orb_false_iff.
  split; apply existsb_none; intros x Hx.
  - rewrite contains_any_suffix.
    apply (any_suffix_none _ (fun c => negb (PyStr.char_in c "rfd"))); auto.
    + simpl in Hx. decompose [or] Hx; try contradiction; subst x; reflexivity.
    + intros c y Hc. apply literal_needs_start; auto.
      now apply negb_true_iff.
  - rewrite search_any_suffix.
    apply (any_suffix_none _ (fun c => negb (PyStr.char_in c "rfd"))); auto.
    + simpl in Hx. decompose [or] Hx; try contradiction; subst x; reflexivity.
    + intros c y Hc. apply pattern_needs_start; auto.
      now apply negb_true_iff.
Qed.

(** Without a quote character the tokenizer cannot fail, and every token
    is made of characters of the input. *)
Lemma read_tokens_plain (p : ascii -> bool) (s : string) (st : Shlex.state)
  (token : string) :
  (forall c, p c = true -> is_quote c = false) ->
  all_chars p s = true -> all_chars p token = true ->
  match st with Shlex.InQuote _ => False | _ => True end ->
  exists tokens,
    Shlex.read_tokens s st token = Ok tokens
    /\ Forall (fun t => all_chars p t = true) tokens.
Proof.
  intros Hq. revert st token.
  induction s as [|c s IH]; intros st token Hs Ht Hst.
  - destruct st; [| |contradiction]; simpl; eauto.
  - simpl in Hs. apply andb_true_iff in Hs. destruct Hs as [Hc Hs].
    pose proof (Hq c Hc) as Hcq. unfold is_quote in Hcq.
    assert (Hone : all_chars p (String c EmptyString) = true)
      by (simpl; now rewrite Hc).
    destruct st as [| |q]; [| |contradiction]; cbn [Shlex.read_tokens].
    + destruct (PyStr.char_in c Shlex.whitespace).
      * apply IH; auto.
      * rewrite Hcq. apply IH; auto.
    + destruct (PyStr.char_in c Shlex.whitespace).
      * destruct (IH Shlex.InSpace EmptyString Hs eq_refl I) as (ts & E & F).
        rewrite E. simpl. eauto.
      * apply IH; auto. unfold Shlex.snoc.
        now rewrite all_chars_app, Ht, Hone.
Qed.

Lemma inert_not_directory (command : string) :
  all_chars inert_char command = true ->
  _is_directory_command command = Ok false.
Proof.
  intros H. unfold _is_directory_command, Shlex.split.
  destruct (read_tokens_plain inert_char command Shlex.InSpace EmptyString
              inert_char_quote H eq_refl I) as (ts & E & F).
  rewrite E. destruct ts as [|t ts]; [reflexivity|]. f_equal.
  inversion F as [|t' ts' Ht _]; subst.
  assert (Hd : all_chars (fun c => negb (Ascii.eqb c "d")) (PyStr.lower t) = true).
  { rewrite lower_all_chars. revert Ht. apply all_chars_weaken.
    intros c Hc. apply inert_char_start in Hc. simpl in Hc.
    rewrite !orb_false_iff in Hc. destruct Hc as (_ & _ & Hc & _).
    now rewrite Hc. }
  destruct (PyStr.in_list (PyStr.lower t) DIRECTORY_COMMANDS) eqn:Hin;
    [|reflexivity].
  unfold PyStr.in_list in Hin. apply existsb_exists in Hin.
  destruct Hin as (w & Hw & Heq). apply String.eqb_eq in Heq.
  rewrite Heq in Hd. clear Heq. simpl in Hw.
  decompose [or] Hw; try contradiction; subst w; discriminate Hd.
Qed.

(** What [strip] leaves satisfies a test; what it removes is white space. *)
Lemma lstrip_all_chars (p q : ascii -> bool) (s : string) :
  all_chars q (PyStr.lstrip_by p s) = true ->
  all_chars (fun c => p c || q c) s = true.
Proof.
  induction s as [|c s IH]; simpl; [auto|].
  destruct (p c) eqn:Hp; simpl.
  - exact IH.
  - rewrite !andb_true_iff. intros [Hc Hs]. split; [exact Hc|].
    revert Hs. apply all_chars_weaken. intros d ->. apply orb_true_r.
Qed.

Lemma rstrip_all_chars (p q : ascii -> bool) (s : string) :
  all_chars q (PyStr.rstrip_by p s) = true ->
  all_chars (fun c => p c || q c) s = true.
Proof.
  induction s as [|c s IH]; simpl; [auto|].
  destruct (PyStr.rstrip_by p s) as [|d r] eqn:E.
  - destruct (p c) eqn:Hp; simpl.
    + intros _. now apply IH.
    + rewrite andb_true_r. intros ->. now apply IH.
  - intros H. change (all_chars q (String c (String d r)) = true) in H.
    cbn [all_chars] in H. apply andb_true_iff in H. destruct H as [Hc Hr].
    rewrite Hc, orb_true_r. apply IH. simpl. exact Hr.
Qed.

Lemma strip_all_chars (q : ascii -> bool) (s : string) :
  all_chars q (PyStr.strip s) = true ->
  all_chars (fun c => PyStr.isspace c || q c) s = true.
Proof.
  unfold PyStr.strip. intros H. apply rstrip_all_chars in H.
  apply lstrip_all_chars in H. revert H. apply all_chars_weaken.
  intros c. destruct (PyStr.isspace c); simpl; auto.
Qed.

Lemma lstrip_by_all (p : ascii -> bool) (s : string) :
  all_chars p s = true -> PyStr.lstrip_by p s = EmptyString.
Proof.
  induction s as [|c s IH]; simpl; [reflexivity|].
  rewrite andb_true_iff. intros [-> Hs]. auto.
Qed.

Lemma strip_blank (s : string) :
  all_chars PyStr.isspace s = true -> PyStr.strip s = EmptyString.
Proof. intros H. unfold PyStr.strip. now rewrite lstrip_by_all. Qed.

Lemma exit_char_inert (c : ascii) :
  PyStr.isspace c || PyStr.char_in (PyStr.lower_char c) "exitqu" = true ->
  inert_char c = true.
Proof.
  destruct c as [[] [] [] [] [] [] [] []]; vm_compute;
    intros H; first [reflexivity | discriminate H].
Qed.

Lemma exit_command_inert (command : string) :
  PyStr.in_list (PyStr.lower (PyStr.strip command)) ["exit"; "quit"] = true ->
  all_chars inert_char command = true.
Proof.
  intros H.
  assert (Hq : all_chars (fun c => PyStr.char_in (PyStr.lower_char c) "exitqu")
                 (PyStr.strip command) = true).
  { rewrite <- (lower_all_chars (fun c => PyStr.char_in c "exitqu")).
    unfold PyStr.in_list in H.
    apply existsb_exists in H. destruct H as (w & Hw & Heq).
    apply String.eqb_eq in Heq. rewrite Heq. clear Heq. simpl in Hw.
    decompose [or] Hw; try contradiction; subst w; reflexivity. }
  apply strip_all_chars in Hq. revert Hq. apply all_chars_weaken.
  exact exit_char_inert.
Qed.

Lemma blank_command_inert (command : string) :
  all_chars PyStr.isspace command = true ->
  all_chars inert_char command = true.
Proof.
  apply all_chars_weaken. intros c Hc. apply exit_char_inert.
  now rewrite Hc.
Qed.

End InertFacts.

(** ** The session's directory *)

Section SessionFacts.

Context {os_path : OsPath}.

Lemma session_cons (h : Host) (command : string)
  (later : list (Host * string)) (current_directory : string) :
  fst (session ((h, command) :: later) current_directory)
  = fst (session later
           (session_update current_directory
              (fst (execute_command h command current_directory)))).
Proof.
  cbn [session].
  now destruct (session later _).
Qed.

(** A step that changes the directory is a successful directory change,
    verified on the host of that step. *)
Lemma session_update_sets (h : Host) (command current_directory : string) :
  let d := session_update current_directory
             (fst (execute_command h command current_directory)) in
  d = current_directory \/ sets_directory h command current_directory d.
Proof.
  cbv zeta. unfold sets_directory.
  destruct (execute_command h command current_directory) as [r calls] eqn:E.
  cbn [fst]. destruct r as [o|e]; [|now left].
  destruct o as [out ok [nd|]] eqn:Eo; [|now left].
  cbn [session_update new_directory].
  destruct (negb (String.eqb nd EmptyString)
            && negb (String.eqb nd current_directory)) eqn:C; [|now left].
  right. exists o. subst o. cbn [new_directory success session_update].
  rewrite C.
  unfold execute_command in E.
  destruct (_is_dangerous_command command); [discriminate E|].
  destruct (_is_directory_command command) as [[|]|e].
  - injection E as Hh _.
    destruct (handler_new_directory _ _ _ nd _ Hh eq_refl) as (S & I & _).
    cbn [success] in S. subst ok. repeat split; auto.
  - destruct (PyStr.in_list _ _).
    + discriminate E.
    + injection E as Hr _. pose proof (report_no_directory
        (communicate h command current_directory 30)) as N.
      rewrite Hr in N. discriminate N.
  - discriminate E.
Qed.

End SessionFacts.

(** ** [strip], [split] and [join] *)

Module LineFacts.

Import PyStrFacts.

Lemma all_chars_lstrip (p q : ascii -> bool) (s : string) :
  all_chars q s = true -> all_chars q (PyStr.lstrip_by p s) = true.
Proof.
  induction s as [|c s IH]; simpl; [auto|].
  rewrite andb_true_iff. intros [Hc Hs].
  destruct (p c); [auto | simpl; now rewrite Hc, Hs].
Qed.

Lemma all_chars_rstrip (p q : ascii -> bool) (s : string) :
  all_chars q s = true -> all_chars q (PyStr.rstrip_by p s) = true.
Proof.
  induction s as [|c s IH]; simpl; [auto|].
  rewrite andb_true_iff. intros [Hc Hs]. specialize (IH Hs).
  destruct (PyStr.rstrip_by p s) as [|d r].
  - destruct (p c); simpl; [reflexivity | now rewrite Hc].
  - change (all_chars q (String c (String d r)) = true).
    cbn [all_chars]. cbn [all_chars] in IH. now rewrite Hc, IH.
Qed.

Lemma all_chars_strip (q : ascii -> bool) (s : string) :
  all_chars q s = true -> all_chars q (PyStr.strip s) = true.
Proof. intros H. now apply all_chars_rstrip, all_chars_lstrip. Qed.

(** The first character that [lstrip] leaves is not stripped. *)
Definition head_kept (p : ascii -> bool) (s : string) : Prop :=
  match s with
  | EmptyString => True
  | String c _ => p c = false
  end.

Lemma lstrip_head_kept (p : ascii -> bool) (s : string) :
  head_kept p (PyStr.lstrip_by p s).
Proof.
  induction s as [|c s IH]; simpl; [exact I|].
  destruct (p c) eqn:Hp; [exact IH | exact Hp].
Qed.

Lemma lstrip_fixed (p : ascii -> bool) (s : string) :
  head_kept p s -> PyStr.lstrip_by p s = s.
Proof. destruct s as [|c s]; simpl; [auto | now intros ->]. Qed.

Lemma rstrip_head_kept (p : ascii -> bool) (s : string) :
  head_kept p s -> head_kept p (PyStr.rstrip_by p s).
Proof.
  destruct s as [|c s]; simpl; [auto|]. intros Hc.
  destruct (PyStr.rstrip_by p s); [now rewrite Hc | exact Hc].
Qed.

Lemma rstrip_idem (p : ascii -> bool) (s : string) :
  PyStr.rstrip_by p (PyStr.rstrip_by p s) = PyStr.rstrip_by p s.
Proof.
  induction s as [|c s IH]; simpl; [reflexivity|].
  destruct (PyStr.rstrip_by p s) as [|d r] eqn:E.
  - destruct (p c) eqn:Hp; simpl; [reflexivity | now rewrite Hp].
  - change (PyStr.rstrip_by p (String c (String d r)) = String c (String d r)).
    cbn [PyStr.rstrip_by]. cbn [PyStr.rstrip_by] in IH. now rewrite IH.
Qed.

Lemma strip_idem (s : string) : PyStr.strip (PyStr.strip s) = PyStr.strip s.
Proof.
  unfold PyStr.strip.
  rewrite (lstrip_fixed _ (PyStr.rstrip_by _ _)).
  - apply rstrip_idem.
  - apply rstrip_head_kept, lstrip_head_kept.
Qed.

Lemma rstrip_length (p : ascii -> bool) (s : string) :
  String.length (PyStr.rstrip_by p s) <= String.length s.
Proof.
  induction s as [|c s IH]; simpl; [lia|].
  destruct (PyStr.rstrip_by p s) as [|d r].
  - destruct (p c); simpl; lia.
  - simpl in *. lia.
Qed.

Lemma lstrip_length (p : ascii -> bool) (s : string) :
  PyStr.lstrip_by p s = s
  \/ String.length (PyStr.lstrip_by p s) < String.length s.
Proof.
  induction s as [|c s IH]; simpl; [now left|].
  destruct (p c); [right | now left].
  destruct IH as [-> | IH]; lia.
Qed.

(** A string that [strip] leaves alone is left alone by both halves. *)
Lemma strip_fixed (s : string) :
  PyStr.strip s = s ->
  PyStr.lstrip_by PyStr.isspace s = s /\ PyStr.rstrip_by PyStr.isspace s = s.
Proof.
  unfold PyStr.strip. intros H.
  destruct (lstrip_length PyStr.isspace s) as [E | L].
  - rewrite E in H. auto.
  - pose proof (rstrip_length PyStr.isspace (PyStr.lstrip_by PyStr.isspace s)).
    rewrite H in *. lia.
Qed.

Lemma lstrip_app (p : ascii -> bool) (a b : string) :
  a <> EmptyString -> PyStr.lstrip_by p a = a ->
  PyStr.lstrip_by p (a ++ b) = a ++ b.
Proof.
  destruct a as [|c a]; [congruence|]. intros _. simpl.
  destruct (p c) eqn:Hp; [|reflexivity].
  intros H. exfalso.
  destruct (lstrip_length p a) as [E | L].
  - rewrite E in H. apply (f_equal String.length) in H. simpl in H. lia.
  - rewrite H in L. simpl in L. lia.
Qed.

Lemma rstrip_app (p : ascii -> bool) (a b : string) :
  b <> EmptyString -> PyStr.rstrip_by p b = b ->
  PyStr.rstrip_by p (a ++ b) = a ++ b.
Proof.
  intros Hb H. induction a as [|c a IH]; simpl; [exact H|].
  rewrite IH. destruct (a ++ b) eqn:E; [|reflexivity].
  apply app_eq_nil in E. destruct E. congruence.
Qed.

Lemma strip_app (a b : string) :
  a <> EmptyString -> b <> EmptyString ->
  PyStr.strip a = a -> PyStr.strip b = b ->
  PyStr.strip (a ++ b) = a ++ b.
Proof.
  intros Ha Hb Sa Sb. apply strip_fixed in Sa, Sb.
  destruct Sa as [La _], Sb as [_ Rb]. unfold PyStr.strip.
  rewrite lstrip_app by assumption. now apply rstrip_app.
Qed.

(** [split] on any separator. *)
Lemma split_cons_nonempty (sep : ascii) (s : string) : PyStr.split sep s <> [].
Proof.
  destruct s as [|c s]; simpl; [discriminate|].
  destruct (Ascii.eqb c sep); [discriminate|].
  destruct (PyStr.split sep s); discriminate.
Qed.

Lemma split_at (sep : ascii) (a b : string) :
  PyStr.split sep (a ++ String sep b)
  = (PyStr.split sep a ++ PyStr.split sep b)%list.
Proof.
  induction a as [|c a IH]; simpl.
  - now rewrite Ascii.eqb_refl.
  - destruct (Ascii.eqb c sep).
    + now rewrite IH.
    + rewrite IH. pose proof (split_cons_nonempty sep a) as Hne.
      destruct (PyStr.split sep a); [congruence | reflexivity].
Qed.

Lemma split_whole (sep : ascii) (w : string) :
  all_chars (fun c => negb (Ascii.eqb c sep)) w = true ->
  PyStr.split sep w = [w].
Proof.
  induction w as [|c w IH]; simpl; [reflexivity|].
  rewrite andb_true_iff, negb_true_iff. intros [-> Hw].
  now rewrite (IH Hw).
Qed.

Lemma split_pieces (sep : ascii) (s : string) :
  Forall (fun w => all_chars (fun c => negb (Ascii.eqb c sep)) w = true)
         (PyStr.split sep s).
Proof.
  induction s as [|c s IH]; simpl.
  - repeat constructor.
  - destruct (Ascii.eqb c sep) eqn:E.
    + constructor; [reflexivity | exact IH].
    + destruct (PyStr.split sep s) as [|w ws].
      * repeat constructor. simpl. now rewrite E.
      * inversion IH; subst. constructor; auto. simpl. now rewrite E.
Qed.

Lemma split_join (sep : ascii) (w : string) (ws : list string) :
  Forall (fun w => all_chars (fun c => negb (Ascii.eqb c sep)) w = true)
         (w :: ws) ->
  PyStr.split sep (PyStr.join (String sep EmptyString) (w :: ws)) = w :: ws.
Proof.
  revert w. induction ws as [|w' ws IH]; intros w H.
  - inversion H; subst. now apply split_whole.
  - inversion H as [|? ? Hw Hws]; subst.
    change (PyStr.join (String sep EmptyString) (w :: w' :: ws))
      with (w ++ String sep (PyStr.join (String sep EmptyString) (w' :: ws))).
    now rewrite split_at, (split_whole _ _ Hw), IH.
Qed.

End LineFacts.

(** ** The commands of a response *)

Module ExtractFacts.

Import PyStrFacts LineFacts LlamaClient.

(** The test of the collecting loop on a stripped line. *)
Definition kept (line : string) : bool :=
  negb (String.eqb line EmptyString)
  && negb (PyStr.startswith line "#")
  && negb (PyStr.startswith line "//").

Lemma fold_collect (lines commands : list string) :
  fold_left collect lines commands
  = (commands ++ filter kept (map PyStr.strip lines))%list.
Proof.
  revert commands. induction lines as [|l lines IH]; intros commands; simpl.
  - now rewrite List.app_nil_r.
  - rewrite IH. unfold collect. fold (kept (PyStr.strip l)).
    destruct (kept (PyStr.strip l)); [|reflexivity].
    now rewrite <- List.app_assoc.
Qed.

Lemma drop_opening_fence_incl (lines : list string) (P : string -> Prop) :
  Forall P lines -> Forall P (drop_opening_fence lines).
Proof.
  intros H. destruct lines as [|l ls]; simpl; [auto|].
  destruct (_ || _); [now inversion H | auto].
Qed.

Lemma drop_closing_fence_incl (lines : list string) (P : string -> Prop) :
  Forall P lines -> Forall P (drop_closing_fence lines).
Proof.
  intros H. destruct lines as [|l ls]; [auto|].
  unfold drop_closing_fence.
  destruct (String.eqb _ _); [|auto].
  rewrite Forall_forall in *. intros x Hx. apply H.
  revert Hx. generalize (l :: ls). clear.
  induction l as [|a l IH]; simpl; [auto|].
  destruct l; simpl in *; [tauto|]. intros [->|Hx]; auto.
Qed.

Lemma kept_is_command (line : string) :
  one_line line = true -> kept (PyStr.strip line) = true ->
  is_command (PyStr.strip line) = true.
Proof.
  unfold kept, is_command, one_line. intros H1 K.
  rewrite !andb_true_iff in K. destruct K as [[K1 K2] K3].
  rewrite K1, K2, K3, strip_idem, String.eqb_refl. simpl.
  now apply all_chars_strip.
Qed.

Lemma is_command_kept (c : string) :
  is_command c = true -> PyStr.strip c = c /\ kept c = true.
Proof.
  unfold is_command, kept. rewrite !andb_true_iff.
  intros ((((H1 & H2) & H3) & H4) & _). apply String.eqb_eq in H2.
  now rewrite H1, H3, H4.
Qed.

Lemma collect_commands (cmds : list string) :
  Forall (fun c => is_command c = true) cmds ->
  fold_left collect cmds [] = cmds.
Proof.
  intros H. rewrite fold_collect. simpl.
  induction H as [|c cs Hc Hcs IH]; [reflexivity|]. simpl.
  destruct (is_command_kept _ Hc) as [-> ->]. now rewrite IH.
Qed.

Lemma is_command_one_line (c : string) :
  is_command c = true -> one_line c = true.
Proof. unfold is_command. rewrite !andb_true_iff. tauto. Qed.

Lemma is_command_nonempty (c : string) :
  is_command c = true -> c <> EmptyString.
Proof.
  unfold is_command. rewrite !andb_true_iff.
  intros ((((H & _) & _) & _) & _) ->. discriminate.
Qed.

(** Joined commands start and end as a command does. *)
Lemma strip_join (c : string) (cs : list string) :
  Forall (fun c => is_command c = true) (c :: cs) ->
  PyStr.join (String newline EmptyString) (c :: cs) <> EmptyString
  /\ PyStr.strip (PyStr.join (String newline EmptyString) (c :: cs))
     = PyStr.join (String newline EmptyString) (c :: cs).
Proof.
  revert c. induction cs as [|c' cs IH]; intros c H.
  - inversion H; subst. split.
    + now apply is_command_nonempty.
    + now apply is_command_kept.
  - inversion H as [|? ? Hc Hcs]; subst.
    destruct (IH c' Hcs) as [Hne Hs].
    change (PyStr.join (String newline EmptyString) (c :: c' :: cs))
      with (c ++ String newline (PyStr.join (String newline EmptyString) (c' :: cs))).
    pose proof (is_command_nonempty _ Hc) as Hcne.
    split.
    + destruct c; [congruence | discriminate].
    + apply strip_fixed in Hs. destruct Hs as [_ Rs].
      destruct (is_command_kept _ Hc) as [Sc _].
      apply strip_fixed in Sc. destruct Sc as [Lc _].
      unfold PyStr.strip. rewrite lstrip_app by assumption.
      change (c ++ String newline (PyStr.join (String newline EmptyString) (c' :: cs)))
        with (c ++ String newline EmptyString
                ++ PyStr.join (String newline EmptyString) (c' :: cs)).
      rewrite <- !app_assoc. now apply rstrip_app.
Qed.

Lemma split_joined_commands (cmds : list string) :
  Forall (fun c => is_command c = true) cmds ->
  fold_left collect
    (PyStr.split newline (PyStr.join (String newline EmptyString) cmds)) []
  = cmds.
Proof.
  intros H. destruct cmds as [|c cs]; [reflexivity|].
  rewrite split_join.
  - now apply collect_commands.
  - revert H. apply Forall_impl. intros a. apply is_command_one_line.
Qed.

Lemma drop_closing_fence_snoc (lines : list string) :
  drop_closing_fence (lines ++ ["```"]) = lines.
Proof.
  destruct lines as [|l ls]; [reflexivity|].
  unfold drop_closing_fence. cbn [app].
  change (l :: (ls ++ ["```"]))%list with ((l :: ls) ++ ["```"])%list.
  now rewrite last_last, removelast_last.
Qed.

Lemma fenced_stripped (lang body : string) :
  PyStr.strip (fenced lang body) = fenced lang body.
Proof.
  unfold PyStr.strip, fenced.
  rewrite (lstrip_app _ "```") by (reflexivity || discriminate).
  replace ("```" ++ lang ++ String newline (body ++ String newline "```"))
    with (("```" ++ lang ++ String newline (body ++ String newline EmptyString))
            ++ "```").
  - apply rstrip_app; [discriminate | reflexivity].
  - rewrite !app_assoc. cbn [append]. rewrite !app_assoc. reflexivity.
Qed.

Lemma fenced_lines (lang body : string) :
  one_line lang = true ->
  PyStr.split newline (fenced lang body)
  = ((("```" ++ lang)%string :: PyStr.split newline body) ++ ["```"])%list.
Proof.
  intros H. unfold fenced.
  rewrite <- app_assoc, !split_at.
  rewrite (split_whole newline ("```" ++ lang)).
  - reflexivity.
  - unfold one_line in H. now rewrite all_chars_app, H.
Qed.

End ExtractFacts.

(** ** Directory listings *)

Module ListingFacts.

Import PyStrFacts LineFacts MainWindow.

Lemma skip_app (a b : string) : skip (String.length a) (a ++ b) = b.
Proof. induction a as [|c a IH]; simpl; [now destruct b | exact IH]. Qed.

Lemma partition_at_nil (sep : string) :
  partition_at sep EmptyString
  = if PyStr.startswith EmptyString sep
    then Some (EmptyString, skip (String.length sep) EmptyString) else None.
Proof. reflexivity. Qed.

Lemma partition_at_cons (sep : string) (c : ascii) (s : string) :
  partition_at sep (String c s)
  = if PyStr.startswith (String c s) sep
    then Some (EmptyString, skip (String.length sep) (String c s))
    else match partition_at sep s with
         | Some (before, after) => Some (String c before, after)
         | None => None
         end.
Proof. reflexivity. Qed.

(** [partition_at] cuts at an occurrence, and at the leftmost one. *)
Lemma partition_at_spec (sep s before after : string) :
  partition_at sep s = Some (before, after) ->
  s = before ++ sep ++ after
  /\ forall before' after',
       s = before' ++ sep ++ after' ->
       String.length before <= String.length before'.
Proof.
  revert before. induction s as [|c s IH]; intros before.
  - rewrite partition_at_nil.
    destruct (PyStr.startswith EmptyString sep) eqn:E; [|discriminate].
    intros [= <- <-]. apply startswith_inv in E. destruct E as [post E].
    split; [|simpl; lia].
    symmetry in E. apply app_eq_nil in E. destruct E as [-> ->]. reflexivity.
  - rewrite partition_at_cons.
    destruct (PyStr.startswith (String c s) sep) eqn:E.
    + intros [= <- <-]. apply startswith_inv in E. destruct E as [post E].
      split; [|simpl; lia].
      rewrite E. cbn [append]. now rewrite skip_app.
    + destruct (partition_at sep s) as [[b0 a0]|] eqn:P; [|discriminate].
      intros [= <- <-]. destruct (IH b0 eq_refl) as [Es Hleft].
      split; [simpl; now rewrite <- Es|].
      intros b' a' E'. destruct b' as [|d b'].
      * simpl in E'. rewrite E', startswith_app in E. discriminate.
      * simpl in E'. injection E' as <- E'. simpl.
        specialize (Hleft _ _ E'). lia.
Qed.

Lemma partition_at_found (sep s : string) :
  PyStr.contains sep s = true ->
  exists before after, partition_at sep s = Some (before, after).
Proof.
  induction s as [|c s IH].
  - rewrite contains_nil, partition_at_nil. intros ->. eauto.
  - rewrite contains_cons, partition_at_cons.
    destruct (PyStr.startswith (String c s) sep); [eauto|].
    simpl. intros H. destruct (IH H) as (b & a & ->). eauto.
Qed.

Lemma terminated_app (xs ys : list string) :
  terminated (xs ++ ys) = terminated xs ++ terminated ys.
Proof.
  induction xs as [|x xs IH]; simpl; [reflexivity|].
  now rewrite IH, app_assoc.
Qed.

(** Splitting into lines and ending each line gives the text and one more
    line break. *)
Lemma terminated_split (s : string) :
  terminated (PyStr.split LlamaClient.newline s)
  = s ++ String LlamaClient.newline EmptyString.
Proof.
  induction s as [|c s IH]; [reflexivity|]. simpl.
  destruct (Ascii.eqb_spec c LlamaClient.newline) as [->|Hc].
  - simpl. now rewrite IH.
  - destruct (PyStr.split LlamaClient.newline s) as [|w ws].
    + simpl in IH. destruct s; discriminate.
    + simpl in *. now rewrite IH.
Qed.

(** The first piece of a split starts the text. *)
Lemma split_head_prefix (sep : ascii) (s w : string) (ws : list string) :
  PyStr.split sep s = w :: ws -> exists post, s = w ++ post.
Proof.
  revert w ws. induction s as [|c s IH]; intros w ws; simpl.
  - intros [= <- <-]. now exists EmptyString.
  - destruct (Ascii.eqb c sep).
    + intros [= <- <-]. now exists (String c s).
    + destruct (PyStr.split sep s) as [|w0 ws0] eqn:E.
      * intros [= <- <-]. now exists s.
      * intros [= <- <-]. destruct (IH _ _ eq_refl) as [post ->].
        now exists post.
Qed.

(** Every piece of a split occurs in the text. *)
Lemma split_piece_substring (sep : ascii) (s w : string) :
  In w (PyStr.split sep s) -> Substring w s.
Proof.
  revert w. induction s as [|c s IH]; intros w; simpl.
  - intros [<-|[]]. now exists EmptyString, EmptyString.
  - destruct (Ascii.eqb c sep).
    + intros [<-|H].
      * now exists EmptyString, (String c s).
      * destruct (IH _ H) as (a & b & ->). now exists (String c a), b.
    + destruct (PyStr.split sep s) as [|w0 ws] eqn:E.
      * intros [<-|[]]. exists EmptyString, s. reflexivity.
      * intros [<-|H].
        -- destruct (split_head_prefix _ _ _ _ E) as [post ->].
           now exists EmptyString, post.
        -- destruct (IH w (or_intror H)) as (a & b & ->).
           now exists (String c a), b.
Qed.

Lemma Substring_trans (a b c : string) :
  Substring a b -> Substring b c -> Substring a c.
Proof.
  intros (p1 & q1 & ->) (p2 & q2 & ->).
  exists (p2 ++ p1), (q1 ++ q2). now rewrite !app_assoc.
Qed.

(** One round of the loop shows the line highlighted. *)
Lemma format_line_spec (acc line : string) :
  exists shown,
    Highlighted line shown
    /\ format_line (Ok acc) line
       = Ok (acc ++ shown ++ String LlamaClient.newline EmptyString).
Proof.
  unfold format_line. destruct (PyStr.contains "<DIR>" line) eqn:C.
  - destruct (partition_at_found _ _ C) as (b & a & P).
    unfold split_once. rewrite P. cbn [index nth_error].
    exists (b ++ DIR_span ++ a). split; [|reflexivity].
    right. exists b, a. destruct (partition_at_spec _ _ _ _ P) as [E L].
    auto.
  - exists line. split; [|reflexivity]. left. split; [|reflexivity].
    intros S. apply contains_spec in S. congruence.
Qed.

Lemma fold_format_line (lines : list string) (acc : string) :
  exists shown,
    Forall2 Highlighted lines shown
    /\ fold_left format_line lines (Ok acc) = Ok (acc ++ terminated shown).
Proof.
  revert acc. induction lines as [|l ls IH]; intros acc.
  - exists []. split; [constructor | simpl; now rewrite app_nil_r].
  - destruct (format_line_spec acc l) as (x & Hx & E).
    destruct (IH (acc ++ x ++ String LlamaClient.newline EmptyString))
      as (xs & Hxs & E').
    exists (x :: xs). split; [now constructor|].
    cbn [fold_left]. rewrite E, E'. simpl.
    now rewrite !app_assoc.
Qed.

Lemma fold_plain_lines (lines : list string) (acc : string) :
  Forall (fun l => PyStr.contains "<DIR>" l = false) lines ->
  fold_left format_line lines (Ok acc) = Ok (acc ++ terminated lines).
Proof.
  intros H. revert acc. induction H as [|l ls Hl Hls IH]; intros acc.
  - simpl. now rewrite app_nil_r.
  - cbn [fold_left]. unfold format_line at 2. rewrite Hl, IH. simpl.
    now rewrite !app_assoc.
Qed.

End ListingFacts.

(** ** The commands of the assistant in the window *)

Section WindowFacts.

Context {os_path : OsPath}.

Import MainWindow.

Variable events : Events.

Lemma format_listing_returns (output : string) :
  exists formatted, _format_directory_listing output = Ok formatted.
Proof.
  destruct (ListingFacts.fold_format_line
              (PyStr.split LlamaClient.newline output) EmptyString)
    as (shown & _ & E).
  eexists. exact E.
Qed.

Lemma runs_returns (h : Host) (command current_directory : string) :
  runs command = true ->
  exists o calls,
    execute_command h command current_directory = (Ok o, calls).
Proof.
  intros R.
  destruct (execute_command_returns_or_raises h command current_directory)
    as [H | [Hs He]]; [exact H|].
  unfold runs in R. rewrite Hs, orb_false_r in R.
  rewrite (dangerous_first _ _ _ R) in He. discriminate.
Qed.

Lemma not_runs_raises (h : Host) (command current_directory : string) :
  runs command = false ->
  execute_command h command current_directory
  = (Raise (ValueError "No closing quotation"), []).
Proof.
  unfold runs. rewrite orb_false_iff. intros [Hd Hs].
  destruct (Shlex.split command) as [ts|e] eqn:E; [discriminate|].
  pose proof (ShlexFacts.read_tokens_raise _ _ _ _ E) as ->.
  unfold execute_command, _is_directory_command. now rewrite Hd, E.
Qed.

(** Without queued events a line in the terminal leaves the directory. *)
Lemma append_quiet_directory (w : Window) (prompt text : string)
  (color : option string) :
  quiet events ->
  current_directory (_append_to_terminal events w prompt text color)
  = current_directory w.
Proof.
  intros Q. unfold _append_to_terminal, processEvents.
  cbn [current_directory events_processed]. now rewrite Q.
Qed.

Lemma execute_command_in_window_runs (h : Host) (w : Window) (command : string) :
  runs command = true ->
  exists w' r,
    _execute_command events h w command = (w', Ok r)
    /\ (quiet events ->
        current_directory w'
        = session_update (current_directory w)
            (fst (execute_command h command (current_directory w)))).
Proof.
  intros R. unfold _execute_command.
  destruct (runs_returns h command (current_directory w) R) as (o & calls & E).
  rewrite E. cbn [fst current_directory].
  destruct (success o); [destruct (String.eqb (output o) EmptyString)|];
    try (do 2 eexists; split; [reflexivity|]; intros Q;
         rewrite ?append_quiet_directory by exact Q; reflexivity).
  destruct (_ || _).
  - destruct (format_listing_returns (output o)) as [f ->].
    do 2 eexists; split; [reflexivity|]. intros Q.
    now rewrite append_quiet_directory.
  - do 2 eexists; split; [reflexivity|]. intros Q.
    now rewrite append_quiet_directory.
Qed.

Lemma execute_command_in_window_raises (h : Host) (w : Window) (command : string) :
  runs command = false ->
  _execute_command events h w command
  = ({| current_directory := current_directory w;
        terminal_output := terminal_output w;
        popen_calls := (popen_calls w ++ [])%list;
        events_processed := events_processed w |},
     Raise (ValueError "No closing quotation")).
Proof.
  intros R. unfold _execute_command.
  now rewrite (not_runs_raises h command (current_directory w) R).
Qed.

Lemma timeline_cons (hosts : nat -> Host) (i : nat) (c : string)
  (cs : list string) :
  timeline hosts i (c :: cs) = (hosts i, c) :: timeline hosts (S i) cs.
Proof. reflexivity. Qed.

(** Commands on which the executor returns are all run; without queued
    events they run like a session. *)
Lemma run_ai_commands_session (hosts : nat -> Host) (cmds : list string) :
  Forall (fun c => runs c = true) cmds ->
  forall (i : nat) (w : Window),
  exists w',
    run_ai_commands events hosts i w cmds = (w', None)
    /\ (quiet events ->
        current_directory w'
        = fst (session (timeline hosts i cmds) (current_directory w))).
Proof.
  induction 1 as [|c cs Hc Hcs IH]; intros i w.
  - exists w. split; reflexivity.
  - cbn [run_ai_commands].
    set (w1 := _append_to_terminal events w EmptyString ("$ " ++ c)
                 (Some "#6EDDDD")).
    destruct (execute_command_in_window_runs (hosts i) w1 c Hc)
      as (w2 & r & E & D).
    rewrite E. destruct (IH (S i) w2) as (w3 & E3 & D3).
    rewrite E3. exists w3. split; [reflexivity|]. intros Q.
    rewrite timeline_cons, session_cons, (D3 Q), (D Q).
    unfold w1. now rewrite append_quiet_directory.
Qed.

(** The first command on which the executor raises ends the loop, whatever
    comes after it. *)
Lemma run_ai_commands_raise (hosts : nat -> Host) (pre : list string)
  (bad : string) (post : list string) :
  Forall (fun c => runs c = true) pre ->
  runs bad = false ->
  forall (i : nat) (w : Window),
  exists w',
    run_ai_commands events hosts i w pre = (w', None)
    /\ run_ai_commands events hosts i w (pre ++ bad :: post)
       = (fst (_execute_command events (hosts (i + List.length pre))
                 (_append_to_terminal events w' EmptyString ("$ " ++ bad)
                    (Some "#6EDDDD")) bad),
          Some (ValueError "No closing quotation")).
Proof.
  intros Hpre Hbad. induction Hpre as [|c cs Hc Hcs IH]; intros i w.
  - exists w. split; [reflexivity|].
    cbn [app run_ai_commands List.length]. rewrite Nat.add_0_r.
    now rewrite (execute_command_in_window_raises _ _ _ Hbad).
  - cbn [app run_ai_commands List.length].
    set (w1 := _append_to_terminal events w EmptyString ("$ " ++ c)
                 (Some "#6EDDDD")).
    destruct (execute_command_in_window_runs (hosts i) w1 c Hc)
      as (w2 & r & E & _).
    rewrite E. destruct (IH (S i) w2) as (w3 & E3 & E4).
    rewrite E3, E4. exists w3. split; [reflexivity|].
    now rewrite Nat.add_succ_r.
Qed.

End WindowFacts.

(** ** The pattern for [format] *)

Module PatternFacts.

Import Re PyStrFacts ReFacts.

Lemma Matches_Str (w m : string) : Matches (Str w) m -> m = w.
Proof.
  revert m. induction w as [|c w IH]; intros m H.
  - now apply Eps_inv in H.
  - destruct w as [|d w].
    + inversion H; subst. reflexivity.
    + change (Str (String c (String d w)))
        with (Cat (Chr c) (Str (String d w))) in H.
      apply Cat_inv in H. destruct H as (m1 & m2 & -> & H1 & H2).
      inversion H1; subst. simpl. f_equal. now apply IH.
Qed.

(** A match of the pattern for [format] starts with the literal. *)
Lemma format_pattern_literal (s : string) :
  search (nth 2 danger_patterns Empty) s = true ->
  PyStr.contains "format" s = true.
Proof.
  intros H. apply search_spec in H. destruct H as (pre & m & post & -> & M).
  apply contains_spec.
  change (nth 2 danger_patterns Empty)
    with (Cat (Str "format")
              (CommandExecutor.Seq [Plus Space;
                                    OneOf [Range "c" "z"; Range "C" "Z"];
                                    Chr ":"])) in M.
  apply Cat_inv in M. destruct M as (m1 & m2 & -> & M1 & _).
  apply Matches_Str in M1. subst m1.
  exists pre, (m2 ++ post). now rewrite !app_assoc.
Qed.

End PatternFacts.

(** * The claims of the specification *)

(** C1. Every command whose lower-cased text contains a blocked literal or
    a match of a danger pattern is answered, in every working directory,
    with the blocked-for-safety outcome: not succeeded, no new directory,
    no process spawned.  Nothing is asked of the first token, so the check
    comes before the directory-change, exit and host-execution
    classifications. *)
Theorem dangerous_command_blocked
  {os_path : OsPath} (h : Host) (command current_directory : string) :
  Dangerous command ->
  execute_command h command current_directory
  = (Ok {| output := "Command blocked for safety reasons. Please use a less destructive alternative.";
           success := false;
           new_directory := None |}, []).
Proof.
  intros H. apply is_dangerous_spec in H.
  now apply dangerous_first.
Qed.

Lemma dangerous_command_blocked_witness :
  Dangerous "CD /tmp/x; Rm  -RF \"
  /\ execute_command demo_host "CD /tmp/x; Rm  -RF \" "/srv"
     = (Ok blocked_outcome, []).
Proof.
  assert (D : Dangerous "CD /tmp/x; Rm  -RF \").
  { right. exists (nth 0 danger_patterns Re.Empty). split; [simpl; auto|].
    apply ReFacts.search_spec. vm_compute. reflexivity. }
  split; [exact D|].
  exact (dangerous_command_blocked demo_host _ "/srv" D).
Defined.

(** C2 (the code departs from it). The executor is meant to answer every input
    with an outcome, but the tokenizer call that classifies directory
    commands sits outside every [try]: on a harmless command with an
    unbalanced quote the [ValueError] of [shlex] reaches the caller. *)
Theorem unbalanced_quote_raises
  {os_path : OsPath} (h : Host) (current_directory : string) :
  execute_command h ("echo " ++ dq ++ "hello") current_directory
  = (Raise (ValueError "No closing quotation"), []).
Proof. reflexivity. Qed.

(** C3. A command that reaches host execution is spawned once, in the
    working directory, with the 30 second timeout, and the outcome follows
    the way the process ends: exit code 0 gives succeeded with the trimmed
    standard output; another exit code gives failure with the trimmed
    standard error after "Error: "; a timeout gives failure with the
    timeout message; any other exception gives failure with the
    launch-failure message.  No new directory in any case. *)
Theorem host_execution_outcome
  {os_path : OsPath} (h : Host) (command current_directory : string) :
  reaches_host command ->
  exists o,
    execute_command h command current_directory
    = (Ok o, [ {| popen_command := command; popen_cwd := current_directory;
                  popen_timeout := 30 |} ])
    /\ new_directory o = None
    /\ match communicate h command current_directory 30 with
       | Exited returncode stdout stderr =>
           if (returncode =? 0)%Z
           then success o = true /\ output o = PyStr.strip stdout
           else success o = false /\ output o = "Error: " ++ PyStr.strip stderr
       | TimeoutExpired =>
           success o = false /\ output o = "Command timed out after 30 seconds"
       | OtherException str_e =>
           success o = false
           /\ output o = "Failed to execute command: " ++ str_e
       end.
Proof.
  intros (Hd & Hc & He). unfold execute_command. rewrite Hd, Hc, He.
  eexists. split; [reflexivity|]. split; [apply report_no_directory|].
  destruct (communicate h command current_directory 30) as [rc out err| |e];
    simpl; auto.
  destruct (rc =? 0)%Z; simpl; auto.
Qed.

Lemma host_execution_outcome_witness :
  reaches_host "echo Hello World"
  /\ exists o,
       execute_command demo_host "echo Hello World" "/srv"
       = (Ok o, [ {| popen_command := "echo Hello World"; popen_cwd := "/srv";
                     popen_timeout := 30 |} ])
       /\ new_directory o = None
       /\ success o = true /\ output o = "echo Hello World".
Proof.
  assert (R : reaches_host "echo Hello World").
  { unfold reaches_host. vm_compute. auto. }
  split; [exact R|].
  destruct (host_execution_outcome demo_host "echo Hello World" "/srv" R)
    as (o & E & N & S & O).
  exists o. repeat split; assumption.
Defined.

(** C4 (amended). A non-dangerous command whose first token is, in lower
    case, [cd] or [chdir], with an argument that resolves to a directory of
    the host, succeeds with a confirmation naming the resolved path and
    that path as the new directory; the argument is taken as it is when it
    is absolute and is otherwise joined to the working directory and
    normalised.  In particular, on every platform on which [..] is not an
    absolute path, [cd ..] in [D] succeeds with the new directory [P], the
    lexical parent of [D] (that is [D] joined with [..] and normalised),
    when [P] is a directory of the host; with [posixpath] this [P] is the
    directory that holds [D]: from the entry [name] of a normalised
    absolute directory [P], [cd ..] succeeds with [P] as the new
    directory. *)
Theorem cd_existing_directory :
  (forall (os_path : OsPath) (h : Host)
          (command current_directory first : string) (args : list string),
      _is_dangerous_command command = false ->
      Shlex.split command = Ok (first :: args) ->
      args <> [] ->
      PyStr.lower first = "cd" \/ PyStr.lower first = "chdir" ->
      let target := cd_target args in
      let new_dir := if isabs target then target
                     else normpath (join current_directory target) in
      isdir h new_dir = true ->
      execute_command h command current_directory
      = (Ok {| output := "Changed directory to: " ++ new_dir;
               success := true;
               new_directory := Some new_dir |}, []))
  /\ (forall (os_path : OsPath) (h : Host) (D P : string),
         isabs ".." = false ->
         normpath (join D "..") = P ->
         isdir h P = true ->
         execute_command h "cd .." D
         = (Ok {| output := "Changed directory to: " ++ P;
                  success := true;
                  new_directory := Some P |}, []))
  /\ (forall (h : Host) (P name : string),
         PosixPath.isabs P = true ->
         PosixPath.normpath P = P ->
         valid_name name = true ->
         isdir h P = true ->
         execute_command (os_path := posixpath) h "cd .." (PosixPath.join P name)
         = (Ok {| output := "Changed directory to: " ++ P;
                  success := true;
                  new_directory := Some P |}, [])).
Proof.
  assert (Hup : forall (os_path : OsPath) (h : Host) (D P : string),
             isabs ".." = false ->
             normpath (join D "..") = P ->
             isdir h P = true ->
             execute_command h "cd .." D
             = (Ok {| output := "Changed directory to: " ++ P;
                      success := true;
                      new_directory := Some P |}, [])).
  { intros os_path h D P Hrel Hp Hdir.
    rewrite (cd_with_argument h "cd .." _ "cd" ".." []);
      [ | reflexivity | reflexivity | now left ].
    change (cd_target [".."]) with "..".
    unfold resolve. now rewrite Hrel, Hp, Hdir. }
  split; [|split].
  - intros os_path h command D first args Hd Hs Hne Hb target new_dir Hdir.
    destruct args as [|arg args]; [congruence|].
    rewrite (cd_with_argument h command D first arg args Hd Hs Hb).
    fold target. unfold resolve. fold new_dir. now rewrite Hdir.
  - exact Hup.
  - intros h P name Ha Hp Hn Hdir.
    apply (Hup posixpath); [reflexivity | | exact Hdir].
    change (PosixPath.normpath (PosixPath.join (PosixPath.join P name) "..") = P).
    now rewrite PosixFacts.normpath_parent, Hp.
Qed.

Lemma cd_existing_directory_witness :
  execute_command demo_host "ChDir  /srv/a  b" "/"
  = (Ok {| output := "Changed directory to: /srv/a b"; success := true;
           new_directory := Some "/srv/a b" |}, [])
  /\ execute_command demo_host "cd .." "/srv/a b/../formats/."
     = (Ok {| output := "Changed directory to: /srv"; success := true;
              new_directory := Some "/srv" |}, [])
  /\ execute_command demo_host "cd .." "/srv/formats"
     = (Ok {| output := "Changed directory to: /srv"; success := true;
              new_directory := Some "/srv" |}, []).
Proof.
  split; [|split].
  - apply (proj1 cd_existing_directory posixpath demo_host
             "ChDir  /srv/a  b" "/" "ChDir" ["/srv/a"; "b"]).
    + vm_compute. reflexivity.
    + vm_compute. reflexivity.
    + discriminate.
    + right. vm_compute. reflexivity.
    + vm_compute. reflexivity.
  - apply (proj1 (proj2 cd_existing_directory) posixpath demo_host
             "/srv/a b/../formats/." "/srv").
    + reflexivity.
    + vm_compute. reflexivity.
    + reflexivity.
  - apply (proj2 (proj2 cd_existing_directory) demo_host "/srv" "formats").
    + reflexivity.
    + vm_compute. reflexivity.
    + vm_compute. reflexivity.
    + reflexivity.
Defined.

(** C4 as first stated fails: [formats] is a directory below [/srv], yet
    [cd formats] is blocked, for its text contains a blocked literal. *)
Lemma cd_existing_directory_blocked :
  Shlex.split "cd formats" = Ok ["cd"; "formats"]
  /\ isdir demo_host (resolve "/srv" (cd_target ["formats"])) = true
  /\ execute_command demo_host "cd formats" "/srv"
     = (Ok {| output := "Command blocked for safety reasons. Please use a less destructive alternative.";
              success := false;
              new_directory := None |}, []).
Proof. vm_compute. auto. Qed.

(** C5 (amended). A non-dangerous command whose first token is, in lower
    case, [cd] or [chdir], with an argument whose resolved path is not a
    directory of the host, fails with the path-not-found message naming the
    argument (the remaining tokens joined by single spaces, quote
    characters stripped at both ends) and returns no new directory. *)
Theorem cd_missing_directory
  {os_path : OsPath} (h : Host) (command current_directory first : string)
  (args : list string) :
  _is_dangerous_command command = false ->
  Shlex.split command = Ok (first :: args) ->
  args <> [] ->
  PyStr.lower first = "cd" \/ PyStr.lower first = "chdir" ->
  isdir h (resolve current_directory (cd_target args)) = false ->
  execute_command h command current_directory
  = (Ok {| output := "The system cannot find the path specified: "
                     ++ cd_target args;
           success := false;
           new_directory := None |}, []).
Proof.
  intros Hd Hs Hne Hb Hdir.
  destruct args as [|arg args]; [congruence|].
  rewrite (cd_with_argument h command current_directory first arg args Hd Hs Hb).
  cbv zeta. now rewrite Hdir.
Qed.

Lemma cd_missing_directory_witness :
  execute_command demo_host "cd /path/does/not/exist" "/srv"
  = (Ok {| output := "The system cannot find the path specified: /path/does/not/exist";
           success := false; new_directory := None |}, []).
Proof.
  apply (cd_missing_directory demo_host "cd /path/does/not/exist" "/srv"
           "cd" ["/path/does/not/exist"]).
  - vm_compute. reflexivity.
  - vm_compute. reflexivity.
  - discriminate.
  - left. reflexivity.
  - vm_compute. reflexivity.
Defined.

(** C5 as first stated fails: [old-format] is no directory below [/srv],
    yet the answer to [cd old-format] is the blocked-for-safety message and
    not the path-not-found message. *)
Lemma cd_missing_directory_blocked :
  Shlex.split "cd old-format" = Ok ["cd"; "old-format"]
  /\ isdir demo_host (resolve "/srv" (cd_target ["old-format"])) = false
  /\ execute_command demo_host "cd old-format" "/srv"
     = (Ok {| output := "Command blocked for safety reasons. Please use a less destructive alternative.";
              success := false;
              new_directory := None |}, [])
  /\ fst (execute_command demo_host "cd old-format" "/srv")
     <> Ok {| output := "The system cannot find the path specified: old-format";
              success := false;
              new_directory := None |}.
Proof. vm_compute. repeat split; discriminate. Qed.

(** C6 (amended). For a path made of plain words (not empty, without space,
    TAB, CR, LF or quote characters) separated by single spaces, the command
    [cd] followed by the path in double quotes and the command [cd] followed
    by the bare path have the same outcome, in every working directory and
    on every host. *)
Theorem quoted_cd_same_outcome
  {os_path : OsPath} (h : Host) (current_directory : string)
  (words : list string) :
  words <> [] ->
  Forall (fun w => plain_word w = true) words ->
  execute_command h ("cd " ++ dq ++ PyStr.join " " words ++ dq) current_directory
  = execute_command h ("cd " ++ PyStr.join " " words) current_directory.
Proof.
  intros Hne Hw.
  pose proof (ShlexFacts.join_quote_free _ Hw) as Hq.
  pose proof (ShlexFacts.split_cd_words _ Hne Hw) as Hbare.
  pose proof (ShlexFacts.cd_target_words _ Hw) as Tbare.
  set (body := PyStr.join " " words) in *.
  change ("cd " ++ dq ++ body ++ dq)
    with ("cd " ++ String Shlex.dquote (body ++ String Shlex.dquote EmptyString)).
  unfold execute_command.
  rewrite DangerFacts.is_dangerous_cd_quoted.
  destruct (_is_dangerous_command ("cd " ++ body)); [reflexivity|].
  unfold _is_directory_command, _handle_directory_command.
  rewrite (ShlexFacts.split_cd_quoted _ Hq), Hbare.
  change (PyStr.in_list (PyStr.lower "cd") DIRECTORY_COMMANDS) with true.
  cbv iota. change (PyStr.lower "cd") with "cd".
  change (String.eqb "cd" "cd" || String.eqb "cd" "chdir") with true.
  cbv iota. rewrite (ShlexFacts.cd_target_quoted _ Hq).
  destruct words as [|w ws]; [congruence|]. now rewrite Tbare.
Qed.

Lemma quoted_cd_same_outcome_witness :
  execute_command demo_host ("cd " ++ dq ++ "a b" ++ dq) "/srv"
  = execute_command demo_host "cd a b" "/srv".
Proof.
  apply (quoted_cd_same_outcome demo_host "/srv" ["a"; "b"]).
  - discriminate.
  - repeat constructor.
Defined.

(** C6 as first stated fails: both [a  b] (two spaces) and [a b] are
    directories below [/srv]; the quoted command enters the first, the bare
    command the second. *)
Lemma quoted_cd_double_space :
  isdir demo_host "/srv/a  b" = true
  /\ execute_command demo_host ("cd " ++ dq ++ "a  b" ++ dq) "/srv"
     = (Ok {| output := "Changed directory to: /srv/a  b"; success := true;
              new_directory := Some "/srv/a  b" |}, [])
  /\ execute_command demo_host "cd a  b" "/srv"
     = (Ok {| output := "Changed directory to: /srv/a b"; success := true;
              new_directory := Some "/srv/a b" |}, [])
  /\ execute_command demo_host ("cd " ++ dq ++ "a  b" ++ dq) "/srv"
     <> execute_command demo_host "cd a  b" "/srv".
Proof. vm_compute. repeat split; discriminate. Qed.

(** Quote characters and other white space inside the path separate the
    two forms as well: a double quote inside the path closes the quoted
    token early, and a TAB is kept by the quoted form only. *)
Lemma quoted_cd_inner_quote_or_tab :
  cd_target [dq ++ "a" ++ dq; "b"; "c" ++ dq] <> cd_target ["a" ++ dq ++ "b"; "c"]
  /\ Shlex.split ("cd " ++ dq ++ "a" ++ dq ++ "b c" ++ dq)
     = Ok ["cd"; dq ++ "a" ++ dq; "b"; "c" ++ dq]
  /\ Shlex.split ("cd a" ++ dq ++ "b c") = Ok ["cd"; "a" ++ dq ++ "b"; "c"]
  /\ Shlex.split ("cd " ++ dq ++ String "009" "b" ++ dq)
     = Ok ["cd"; dq ++ String "009" "b" ++ dq]
  /\ Shlex.split ("cd " ++ String "009" "b") = Ok ["cd"; "b"].
Proof. vm_compute. repeat split; discriminate. Qed.

(** C7. A bare [cd] is a query: in every working directory [D] it succeeds
    with [D] as its message and no new directory, spawning nothing; a
    session that submits it any number of times, on whatever hosts, stays
    in [D] and reads [D] back each time. *)
Theorem bare_cd_reports_directory {os_path : OsPath} (D : string) :
  (forall h : Host,
      execute_command h "cd" D
      = (Ok {| output := D; success := true; new_directory := None |}, []))
  /\ (forall hosts : list Host,
         session (map (fun h => (h, "cd")) hosts) D
         = (D, map (fun _ => Ok {| output := D; success := true;
                                   new_directory := None |}) hosts)).
Proof.
  split; [reflexivity|].
  induction hosts as [|h hosts IH]; [reflexivity|].
  cbn [map session]. change (fst (execute_command h "cd" D))
    with (Ok {| output := D; success := true; new_directory := None |}).
  cbn [session_update new_directory]. now rewrite IH.
Qed.

(** C8. A non-dangerous command whose first token is, in lower case,
    [pushd] or [popd] is answered with the not-fully-implemented outcome:
    not succeeded, no new directory, no process spawned. *)
Theorem directory_stack_unimplemented
  {os_path : OsPath} (h : Host) (command current_directory first : string)
  (args : list string) :
  _is_dangerous_command command = false ->
  Shlex.split command = Ok (first :: args) ->
  PyStr.lower first = "pushd" \/ PyStr.lower first = "popd" ->
  execute_command h command current_directory
  = (Ok {| output := "Command " ++ PyStr.lower first ++ " not fully implemented.";
           success := false;
           new_directory := None |}, []).
Proof.
  intros Hd Hs Hb. unfold execute_command. rewrite Hd.
  rewrite (is_directory_command_tokens _ _ _ Hs).
  unfold _handle_directory_command. rewrite Hs.
  destruct Hb as [-> | ->]; reflexivity.
Qed.

Lemma directory_stack_unimplemented_witness :
  execute_command demo_host "PushD /srv" "/"
  = (Ok {| output := "Command pushd not fully implemented.";
           success := false; new_directory := None |}, []).
Proof.
  apply (directory_stack_unimplemented demo_host "PushD /srv" "/" "PushD" ["/srv"]).
  - vm_compute. reflexivity.
  - vm_compute. reflexivity.
  - left. vm_compute. reflexivity.
Defined.

(** C9. Whenever the executor returns an outcome with a new directory, the
    outcome is a success, the path was found to be a directory on the host,
    nothing was spawned, and the command was a non-dangerous [cd] or [chdir]
    with an argument resolving to that path; so every other branch returns
    no new directory. *)
Theorem new_directory_invariant
  {os_path : OsPath} (h : Host) (command current_directory nd : string)
  (o : Outcome) (calls : list popen_call) :
  execute_command h command current_directory = (Ok o, calls) ->
  new_directory o = Some nd ->
  success o = true /\ isdir h nd = true /\ calls = []
  /\ output o = "Changed directory to: " ++ nd
  /\ _is_dangerous_command command = false
  /\ exists first args,
       Shlex.split command = Ok (first :: args) /\ args <> []
       /\ (PyStr.lower first = "cd" \/ PyStr.lower first = "chdir")
       /\ nd = resolve current_directory (cd_target args).
Proof.
  unfold execute_command.
  destruct (_is_dangerous_command command) eqn:Hd.
  { intros [= <- <-]. discriminate. }
  destruct (_is_directory_command command) as [[|]|e] eqn:Hc.
  - intros [= Hh <-] Hn.
    destruct (handler_new_directory _ _ _ _ _ Hh Hn) as (S & I & O & T).
    repeat split; auto.
  - destruct (PyStr.in_list _ _).
    + intros [= <- <-]. discriminate.
    + intros [= <- <-]. now rewrite report_no_directory.
  - discriminate.
Qed.

Lemma new_directory_invariant_witness :
  success {| output := "Changed directory to: /srv"; success := true;
             new_directory := Some "/srv" |} = true
  /\ isdir demo_host "/srv" = true.
Proof.
  destruct (new_directory_invariant demo_host "chdir .." "/srv/formats" "/srv"
              {| output := "Changed directory to: /srv"; success := true;
                 new_directory := Some "/srv" |} [])
    as (S & I & _).
  - vm_compute. reflexivity.
  - reflexivity.
  - split; assumption.
Defined.

(** C10. The literal blocklist is matched as bare substrings of the
    lower-cased text: every command that contains "format" there, such as
    the harmless [echo information], is blocked in every working
    directory. *)
Theorem format_substring_blocked
  {os_path : OsPath} (h : Host) (command current_directory : string) :
  Substring "format" (PyStr.lower command) ->
  execute_command h command current_directory
  = (Ok {| output := "Command blocked for safety reasons. Please use a less destructive alternative.";
           success := false;
           new_directory := None |}, []).
Proof.
  intros H. apply dangerous_first, is_dangerous_spec.
  left. exists "format". split; [simpl; auto | exact H].
Qed.

Lemma format_substring_blocked_witness :
  Substring "format" (PyStr.lower "echo InFormation")
  /\ execute_command demo_host "echo InFormation" "/srv"
     = (Ok blocked_outcome, []).
Proof.
  assert (S : Substring "format" (PyStr.lower "echo InFormation")).
  { exists "echo in", "ion". reflexivity. }
  split; [exact S|].
  exact (format_substring_blocked demo_host _ "/srv" S).
Defined.

(** * Further properties of the code *)

(** X1. [exit] and [quit], in any letter case and with any white space
    around them, are answered with the notice about the close button:
    succeeded, no new directory, no process spawned.  The safety check and
    the directory check, which come first, never take such a command. *)
Theorem exit_quit_notice
  {os_path : OsPath} (h : Host) (command current_directory : string) :
  PyStr.in_list (PyStr.lower (PyStr.strip command)) ["exit"; "quit"] = true ->
  execute_command h command current_directory
  = (Ok {| output := "Use the window close button to exit the application.";
           success := true;
           new_directory := None |}, []).
Proof.
  intros H. pose proof (InertFacts.exit_command_inert _ H) as Hi.
  unfold execute_command.
  now rewrite (InertFacts.inert_not_dangerous _ Hi),
    (InertFacts.inert_not_directory _ Hi), H.
Qed.

Lemma exit_quit_notice_witness :
  execute_command demo_host (String "011" " QuIt  ") "/srv" = (Ok exit_notice, []).
Proof.
  apply (exit_quit_notice demo_host (String "011" " QuIt  ") "/srv").
  vm_compute. reflexivity.
Defined.

(** X2. The executor has no guard for an empty command: a command that is
    empty or made of white space only reaches the host shell, which is
    spawned once with the text as it is. *)
Theorem blank_command_spawned
  {os_path : OsPath} (h : Host) (command current_directory : string) :
  all_chars PyStr.isspace command = true ->
  reaches_host command
  /\ execute_command h command current_directory
     = (Ok (report (communicate h command current_directory 30)),
        [the_call command current_directory]).
Proof.
  intros H. pose proof (InertFacts.blank_command_inert _ H) as Hi.
  pose proof (InertFacts.inert_not_dangerous _ Hi) as Hd.
  pose proof (InertFacts.inert_not_directory _ Hi) as Hc.
  assert (He : PyStr.in_list (PyStr.lower (PyStr.strip command))
                 ["exit"; "quit"] = false)
    by now rewrite (InertFacts.strip_blank _ H).
  split; [now repeat split|].
  unfold execute_command. now rewrite Hd, Hc, He.
Qed.

Lemma blank_command_spawned_witness :
  execute_command demo_host EmptyString "/srv"
  = (Ok {| output := EmptyString; success := true; new_directory := None |},
     [the_call EmptyString "/srv"]).
Proof.
  exact (proj2 (blank_command_spawned demo_host EmptyString "/srv" eq_refl)).
Defined.

(** X3. Text around a blocked command does not unblock it: if the safety
    check blocks [command], it blocks every text that contains [command],
    whatever comes before and after it. *)
Theorem blocked_in_any_context
  {os_path : OsPath} (h : Host) (pre command post current_directory : string) :
  _is_dangerous_command command = true ->
  execute_command h (pre ++ command ++ post) current_directory
  = (Ok {| output := "Command blocked for safety reasons. Please use a less destructive alternative.";
           success := false;
           new_directory := None |}, []).
Proof.
  intros H. apply dangerous_first, is_dangerous_spec.
  apply is_dangerous_spec in H. unfold Dangerous in *.
  rewrite !PyStrFacts.lower_app.
  destruct H as [(b & Hin & p1 & p2 & E) | (r & Hin & p1 & m & p2 & E & M)];
    rewrite E; [left; exists b | right; exists r]; split; auto.
  - exists (PyStr.lower pre ++ p1), (p2 ++ PyStr.lower post).
    now rewrite !PyStrFacts.app_assoc.
  - exists (PyStr.lower pre ++ p1), m, (p2 ++ PyStr.lower post).
    split; [now rewrite !PyStrFacts.app_assoc | exact M].
Qed.

Lemma blocked_in_any_context_witness :
  execute_command demo_host ("cd /srv && " ++ "DEL /Q /f C:\" ++ " & echo done") "/"
  = (Ok blocked_outcome, []).
Proof.
  apply (blocked_in_any_context demo_host "cd /srv && " "DEL /Q /f C:\"
           " & echo done" "/").
  vm_compute. reflexivity.
Defined.

(** X5. The executor raises exactly when the command is not blocked and the
    tokenizer fails on it, and then the exception is the tokenizer's
    [ValueError]; the indexing of the token list never fails. *)
Theorem raises_exactly_on_tokenizer_failure
  {os_path : OsPath} (h : Host) (command current_directory : string) (e : exn) :
  (fst (execute_command h command current_directory) = Raise e
   <-> _is_dangerous_command command = false /\ Shlex.split command = Raise e)
  /\ (fst (execute_command h command current_directory) = Raise e ->
      e = ValueError "No closing quotation").
Proof.
  assert (Hiff : fst (execute_command h command current_directory) = Raise e
                 <-> _is_dangerous_command command = false
                     /\ Shlex.split command = Raise e).
  { unfold execute_command, _is_directory_command, _handle_directory_command.
    destruct (_is_dangerous_command command).
    { split; [discriminate | intros [D _]; discriminate]. }
    destruct (Shlex.split command) as [[|first args]|e'] eqn:Hs.
    - destruct (PyStr.in_list _ _); cbn [fst];
        (split; [discriminate | intros [_ D]; discriminate]).
    - destruct (PyStr.in_list (PyStr.lower first) DIRECTORY_COMMANDS).
      + destruct (_ || _); [destruct args; [|destruct (isdir h _)]|];
          cbn [fst]; (split; [discriminate | intros [_ D]; discriminate]).
      + destruct (PyStr.in_list _ _); cbn [fst];
          (split; [discriminate | intros [_ D]; discriminate]).
    - cbn [fst]. split; [intros [= ->]; auto | intros [_ [= ->]]; auto]. }
  split; [exact Hiff|].
  intros H. apply Hiff in H. destruct H as [_ H].
  now apply ShlexFacts.read_tokens_raise in H.
Qed.

Lemma raises_exactly_on_tokenizer_failure_witness :
  fst (execute_command demo_host "dir 'My Documents" "/srv")
  = Raise (ValueError "No closing quotation").
Proof.
  apply (proj1 (raises_exactly_on_tokenizer_failure demo_host
                  "dir 'My Documents" "/srv" _)).
  split; vm_compute; reflexivity.
Defined.


(** X7. Whatever the response, every command that [_extract_commands]
    returns is not empty, has no white space at either end, does not start
    with [#] or [//] and holds no line break. *)
Theorem extracted_commands_well_formed (response_text : string) :
  Forall (fun c => is_command c = true)
         (LlamaClient._extract_commands response_text).
Proof.
  unfold LlamaClient._extract_commands.
  rewrite ExtractFacts.fold_collect. simpl.
  assert (H : Forall (fun l => one_line l = true)
                (LlamaClient.drop_closing_fence
                   (LlamaClient.drop_opening_fence
                      (PyStr.split LlamaClient.newline
                         (PyStr.strip response_text))))).
  { apply ExtractFacts.drop_closing_fence_incl,
      ExtractFacts.drop_opening_fence_incl, LineFacts.split_pieces. }
  induction H as [|l ls Hl Hls IH]; simpl; [constructor|].
  destruct (ExtractFacts.kept (PyStr.strip l)) eqn:K; [|exact IH].
  constructor; [|exact IH]. now apply ExtractFacts.kept_is_command.
Qed.

(** X8. Round trip through a code block: a response that puts well-formed
    commands, one per line, between an opening fence (with any language
    tag) and a closing fence gives back exactly these commands, in order. *)
Theorem fenced_commands_extracted (lang : string) (cmds : list string) :
  one_line lang = true ->
  Forall (fun c => is_command c = true) cmds ->
  LlamaClient._extract_commands
    (fenced lang (PyStr.join (String LlamaClient.newline EmptyString) cmds))
  = cmds.
Proof.
  intros Hl Hc. unfold LlamaClient._extract_commands.
  rewrite ExtractFacts.fenced_stripped, (ExtractFacts.fenced_lines _ _ Hl).
  cbn [LlamaClient.drop_opening_fence app].
  rewrite PyStrFacts.startswith_app. cbn [orb].
  rewrite ExtractFacts.drop_closing_fence_snoc.
  now apply ExtractFacts.split_joined_commands.
Qed.

Lemma fenced_commands_extracted_witness :
  LlamaClient._extract_commands
    (fenced "cmd" (PyStr.join (String LlamaClient.newline EmptyString)
                     ["dir *.txt"; "cd .."]))
  = ["dir *.txt"; "cd .."].
Proof.
  apply (fenced_commands_extracted "cmd" ["dir *.txt"; "cd .."]).
  - reflexivity.
  - repeat constructor.
Defined.

(** X9. Round trip without a code block: well-formed commands joined by
    line breaks are given back as they are, provided the first does not
    start with three backquotes and the last is not three backquotes (which
    would be taken for fences). *)
Theorem joined_commands_extracted (cmds : list string) :
  Forall (fun c => is_command c = true) cmds ->
  PyStr.startswith (hd EmptyString cmds) "```" = false ->
  String.eqb (last cmds EmptyString) "```" = false ->
  LlamaClient._extract_commands
    (PyStr.join (String LlamaClient.newline EmptyString) cmds)
  = cmds.
Proof.
  intros Hc Hfirst Hlast. destruct cmds as [|c cs]; [reflexivity|].
  unfold LlamaClient._extract_commands.
  destruct (ExtractFacts.strip_join c cs Hc) as [_ ->].
  rewrite LineFacts.split_join
    by (revert Hc; apply Forall_impl; intros a;
        apply ExtractFacts.is_command_one_line).
  cbn [hd] in Hfirst. cbn [LlamaClient.drop_opening_fence].
  rewrite Hfirst.
  assert (E1 : String.eqb c "```cmd" = false).
  { destruct (String.eqb_spec c "```cmd"); [subst; discriminate | reflexivity]. }
  assert (E2 : String.eqb c "```powershell" = false).
  { destruct (String.eqb_spec c "```powershell");
      [subst; discriminate | reflexivity]. }
  rewrite E1, E2. cbn [orb].
  unfold LlamaClient.drop_closing_fence. rewrite Hlast.
  now apply ExtractFacts.collect_commands.
Qed.

Lemma joined_commands_extracted_witness :
  LlamaClient._extract_commands
    (PyStr.join (String LlamaClient.newline EmptyString)
       ["mkdir backup"; "xcopy /s docs backup"])
  = ["mkdir backup"; "xcopy /s docs backup"].
Proof.
  apply (joined_commands_extracted ["mkdir backup"; "xcopy /s docs backup"]).
  - repeat constructor.
  - reflexivity.
  - reflexivity.
Defined.

(** X10. [_format_directory_listing] never fails (the indexing of the two
    parts is safe) and keeps every line, in order, each followed by a line
    break; a line without [<DIR>] is kept as it is, and in a line with
    [<DIR>] the leftmost one is replaced by the highlighted, escaped marker
    while the text before and after it is kept. *)
Theorem listing_lines_highlighted (output : string) :
  exists shown,
    Forall2 Highlighted (PyStr.split LlamaClient.newline output) shown
    /\ MainWindow._format_directory_listing output = Ok (terminated shown).
Proof.
  destruct (ListingFacts.fold_format_line
              (PyStr.split LlamaClient.newline output) EmptyString)
    as (shown & H & E).
  exists shown. split; [exact H | exact E].
Qed.

(** X11. A listing in which [<DIR>] does not occur comes back unchanged but
    for one more line break at its end. *)
Theorem plain_listing_unchanged (output : string) :
  PyStr.contains "<DIR>" output = false ->
  MainWindow._format_directory_listing output
  = Ok (output ++ String LlamaClient.newline EmptyString).
Proof.
  intros H. unfold MainWindow._format_directory_listing.
  rewrite ListingFacts.fold_plain_lines.
  - simpl. now rewrite ListingFacts.terminated_split.
  - apply Forall_forall. intros l Hl.
    destruct (PyStr.contains "<DIR>" l) eqn:C; [|reflexivity].
    apply PyStrFacts.contains_spec in C.
    apply ListingFacts.split_piece_substring in Hl.
    pose proof (ListingFacts.Substring_trans _ _ _ C Hl) as S.
    apply PyStrFacts.contains_spec in S. congruence.
Qed.

Lemma plain_listing_unchanged_witness :
  MainWindow._format_directory_listing
    ("a.txt" ++ String LlamaClient.newline "<dir> b")
  = Ok ("a.txt" ++ String LlamaClient.newline "<dir> b"
          ++ String LlamaClient.newline EmptyString).
Proof.
  apply (plain_listing_unchanged ("a.txt" ++ String LlamaClient.newline "<dir> b")).
  reflexivity.
Defined.

(** X12. The danger pattern for [format] followed by a drive letter never
    decides: whatever it matches holds the blocked literal [format], so the
    safety check gives the same verdict without it. *)
Theorem format_pattern_redundant (command : string) :
  _is_dangerous_command command
  = existsb (fun blocked => PyStr.contains blocked (PyStr.lower command))
            BLOCKED_COMMANDS
    || existsb (fun pattern => Re.search pattern (PyStr.lower command))
               other_patterns.
Proof.
  unfold _is_dangerous_command, other_patterns, danger_patterns.
  cbn [existsb firstn skipn app].
  match goal with
  | |- context [Re.search ?p3 (PyStr.lower command) || (Re.search ?p4 _ || false)] =>
      destruct (Re.search p3 (PyStr.lower command)) eqn:E
  end; [|reflexivity].
  apply PatternFacts.format_pattern_literal in E.
  cbn [existsb BLOCKED_COMMANDS]. rewrite E.
  now rewrite !orb_true_r.
Qed.




